(** * The store toolkit of src/libs/store (base.ts, hooks.ts), embedded in Rocq

    The toolkit wraps a zustand store: [StoreHelper] (imperative facade),
    [deepMergeState], [wrapAsyncOperation] (loading/error bookkeeping around
    an async operation) and [useHistoryState] (bounded undo/redo).

    Modelling choices, fixed here once:
    - A JavaScript value is a finite tree.  Objects, arrays, functions and
      Error instances carry the identity they were allocated with (a [ref]);
      [===] and [Object.is] compare primitives by value and everything else
      by identity.  Numbers are integers, so NaN and signed zeros are outside
      the model.
    - Allocation ([{...x}], [Object.assign({}, ...)], object literals,
      [new Error], closures) draws the next identity from a counter kept in
      the world.
    - The world holds one store (current state, listeners in registration
      order), the history record of one [useHistoryState] call, and the trace
      of calls made to functions supplied by callers.  Callbacks are
      observers: a call is recorded with its arguments and changes nothing
      else.  An updater function is given by its effect ([PartialState]).
    - The store itself (zustand) and the deepmerge package are imported by
      base.ts and are not part of the sources; they are modelled after
      sections 4.1 and 4.2 of the specification. *)

From Stdlib Require Import ZArith List String Bool Lia PeanoNat.
From Stdlib Require DecimalString.
Import ListNotations.
Open Scope string_scope.
Open Scope list_scope.

(* ================================================================== *)
(** ** JavaScript values *)
(* ================================================================== *)

Module Js.

Definition ref := nat.

#[local] Set Warnings "-register-all".
Inductive value : Type :=
| VUndefined
| VNull
| VBool (b : bool)
| VNum (n : Z)
| VStr (s : string)
| VFun (id : ref)
| VErr (id : ref) (message : string)
| VArr (id : ref) (elems : list value)
| VObj (id : ref) (props : list (string * value)).

Definition props := list (string * value).

(** [a === b].  [Object.is] differs from it on NaN and on signed zeros only,
    which integers do not have. *)
Definition strict_eq (a b : value) : bool :=
  match a, b with
  | VUndefined, VUndefined => true
  | VNull, VNull => true
  | VBool x, VBool y => Bool.eqb x y
  | VNum x, VNum y => Z.eqb x y
  | VStr x, VStr y => String.eqb x y
  | VFun i, VFun j => Nat.eqb i j
  | VErr i _, VErr j _ => Nat.eqb i j
  | VArr i _, VArr j _ => Nat.eqb i j
  | VObj i _, VObj j _ => Nat.eqb i j
  | _, _ => false
  end.

Definition strict_neq (a b : value) : bool := negb (strict_eq a b).
Definition Object_is : value -> value -> bool := strict_eq.

(** [typeof v === 'object'] (true of [null] as well). *)
Definition typeof_object (v : value) : bool :=
  match v with
  | VNull | VErr _ _ | VArr _ _ | VObj _ _ => true
  | _ => false
  end.

Definition isArray (v : value) : bool :=
  match v with VArr _ _ => true | _ => false end.

Definition instanceof_Error (v : value) : bool :=
  match v with VErr _ _ => true | _ => false end.

(** Truthiness, as [if (v)] tests it. *)
Definition truthy (v : value) : bool :=
  match v with
  | VUndefined | VNull => false
  | VBool b => b
  | VNum n => negb (Z.eqb n 0)
  | VStr s => negb (String.eqb s "")
  | _ => true
  end.

(** The identity of a value that has one. *)
Definition ref_of (v : value) : option ref :=
  match v with
  | VFun i | VErr i _ | VArr i _ | VObj i _ => Some i
  | _ => None
  end.

Definition elems_of (v : value) : list value :=
  match v with VArr _ es => es | _ => [] end.

(** *** Own enumerable string-keyed properties

    States are [Record<string, unknown>] (types.ts, [BaseState]); only
    objects have own properties here. *)

Definition own_props (v : value) : props :=
  match v with VObj _ ps => ps | _ => [] end.

Fixpoint lookup (k : string) (ps : props) : option value :=
  match ps with
  | [] => None
  | (k', v) :: rest => if String.eqb k k' then Some v else lookup k rest
  end.

Definition has_key (k : string) (ps : props) : bool :=
  match lookup k ps with Some _ => true | None => false end.

(** [o[k] = v] on the property list: overwrite in place, or append. *)
Fixpoint set_prop (k : string) (v : value) (ps : props) : props :=
  match ps with
  | [] => [(k, v)]
  | (k', v') :: rest =>
      if String.eqb k k' then (k, v) :: rest else (k', v') :: set_prop k v rest
  end.

(** [delete o[k]]. *)
Fixpoint delete_prop (k : string) (ps : props) : props :=
  match ps with
  | [] => []
  | (k', v') :: rest =>
      if String.eqb k k' then delete_prop k rest else (k', v') :: delete_prop k rest
  end.

Definition keys (ps : props) : list string := map fst ps.

(** [v[k]]: the own property, or [undefined]. *)
Definition get (v : value) (k : string) : value :=
  match lookup k (own_props v) with Some x => x | None => VUndefined end.

Definition hasOwnProperty (v : value) (k : string) : bool :=
  has_key k (own_props v).

(** One source of [Object.assign(target, source)]: every own key of the
    source, in order, read by key and written to the target. *)
Definition assign_from (target source : props) : props :=
  fold_left (fun acc k =>
               match lookup k source with
               | Some v => set_prop k v acc
               | None => acc
               end)
            (keys source) target.

(** [{ ...x }]: the properties of a fresh object spread from [x]. *)
Definition spread (x : value) : props := assign_from [] (own_props x).

(** Nesting depth of containers. *)
Fixpoint depth (v : value) : nat :=
  match v with
  | VErr _ _ => 1
  | VArr _ _ => 1
  | VObj _ ps => S (list_max (map (fun p => depth (snd p)) ps))
  | _ => 0
  end.

End Js.
Import Js.

(* ================================================================== *)
(** ** The world: one store, its listeners, one history record *)
(* ================================================================== *)

(** [historyRef] of hooks.ts. *)
Record history := mkHistory {
  past : list value;
  present : value;
  future : list value
}.

(** What a store's listener set can hold.  Closures are kept
    defunctionalised, with the identity of the closure. *)
Inductive listener :=
| Callback (cb : ref)
    (** a caller's [SubscribeCallback], registered as it is *)
| FieldWatcher (id : ref) (key : string) (cb : ref)
    (** [wrappedCallback] of [StoreHelper.subscribeTo] *)
| HistoryListener (id : ref) (maxSize : Z) (onStoreChange : ref)
    (** the listener [useHistoryState] hands to [store.subscribe] *).

Definition listener_id (l : listener) : ref :=
  match l with
  | Callback cb => cb
  | FieldWatcher id _ _ => id
  | HistoryListener id _ _ => id
  end.

(** A call made to a caller-supplied function. *)
Inductive event := Call (fn : ref) (args : list value).

Record world := mkWorld {
  next_ref : ref;
  state : value;
  listeners : list listener;
  historyRef : history;
  trace : list event
}.

Definition with_state (s : value) (w : world) : world :=
  mkWorld (next_ref w) s (listeners w) (historyRef w) (trace w).
Definition with_listeners (ls : list listener) (w : world) : world :=
  mkWorld (next_ref w) (state w) ls (historyRef w) (trace w).
Definition with_history (h : history) (w : world) : world :=
  mkWorld (next_ref w) (state w) (listeners w) h (trace w).
Definition log (e : event) (w : world) : world :=
  mkWorld (next_ref w) (state w) (listeners w) (historyRef w) (trace w ++ [e]).

(** Take the next identity. *)
Definition fresh (w : world) : ref * world :=
  (next_ref w,
   mkWorld (S (next_ref w)) (state w) (listeners w) (historyRef w) (trace w)).

(** The calls a trace holds to one function, oldest first. *)
Definition calls_to (fn : ref) (t : list event) : list (list value) :=
  flat_map (fun e => match e with
                     | Call f args => if Nat.eqb f fn then [args] else []
                     end) t.

(** What [setState] and [mergeState] accept (types.ts, [PartialState]): a
    value, or a function.  A function is known by what it does in the two
    places the toolkit uses one:
    - [apply s]: the next state the store obtains when the function is
      handed to [store.setState] while the state is [s] (zustand calls
      [partial(state)]; under the immer middleware it is the produced state);
    - [edit ps]: the own properties of a fresh draft object after the
      function was called on it, [ps] being the properties before. *)
Inductive PartialState :=
| Partial (v : value)
| Updater (apply : value -> value) (edit : props -> props).

(** [arr.slice(start)]: a negative start counts from the end. *)
Definition slice_from {A : Type} (start : Z) (l : list A) : list A :=
  let len := Z.of_nat (List.length l) in
  let k := if (start <? 0)%Z then Z.max (len + start) 0 else Z.min start len in
  skipn (Z.to_nat k) l.

(** What each kind of listener does when the store calls it with
    [(state, previousState)]. *)
Definition run_listener (l : listener) (st previousState : value) (w : world)
  : world :=
  match l with
  | Callback cb => log (Call cb [st; previousState]) w
  | FieldWatcher _ key cb =>
      (* base.ts 231-235 *)
      if strict_neq (get st key) (get previousState key)
      then log (Call cb [get st key; get previousState key]) w
      else w
  | HistoryListener _ maxSize onStoreChange =>
      (* hooks.ts 397-404 *)
      let h := historyRef w in
      let w1 :=
        if strict_neq st previousState
        then with_history
               {| past := slice_from (- maxSize) (past h ++ [previousState]);
                  present := st;
                  future := [] |} w
        else w in
      log (Call onStoreChange []) w1
  end.

(* ================================================================== *)
(** ** The container core *)
(* ================================================================== *)

Module Zustand.

Definition getState (w : world) : value := state w.

(** Every registered listener, in registration order. *)
Definition notify (newState previousState : value) (w : world) : world :=
  fold_left (fun acc l => run_listener l newState previousState acc)
            (listeners w) w.

(** Modelled from the spec: the Container Core's [setState] (sections 4.1
    and 4.2, "Plain replace"); the core is the zustand store the toolkit
    imports, which is not under src/.  The value handed in (a function is
    resolved first) is compared by reference with the current state and
    nothing happens when they are the same; otherwise the state is swapped
    and every listener is called with (newState, previousState) in
    registration order.  Without [replace] the new state is a one-level
    shallow merge into a fresh object, fields not present being retained;
    with [replace] (or for a value that is no object) the value becomes the
    state as it is. *)
Definition setState (partial : PartialState) (replace : option bool) (w : world)
  : world :=
  let nextState :=
    match partial with
    | Updater apply _ => apply (state w)
    | Partial v => v
    end in
  if Object_is nextState (state w) then w
  else
    let previousState := state w in
    let wholesale :=
      match replace with
      | Some b => b
      | None => negb (typeof_object nextState) || strict_eq nextState VNull
      end in
    if wholesale
    then notify nextState previousState (with_state nextState w)
    else
      let '(id, w1) := fresh w in
      let merged :=
        VObj id (assign_from (assign_from [] (own_props previousState))
                             (own_props nextState)) in
      notify merged previousState (with_state merged w1).

Definition same_listener (a b : listener) : bool :=
  Nat.eqb (listener_id a) (listener_id b).

(** Modelled from the spec: the Container Core's [subscribe] (section 4.1).
    The listeners form an ordered set: a listener already registered is not
    added again. *)
Definition subscribe (l : listener) (w : world) : world :=
  if existsb (same_listener l) (listeners w) then w
  else with_listeners (listeners w ++ [l]) w.

(** Modelled from the spec: the closure [subscribe] returns (section 4.1).
    It removes exactly that listener, and a second call finds nothing to
    remove. *)
Definition unsubscribe (l : listener) (w : world) : world :=
  with_listeners (filter (fun x => negb (same_listener l x)) (listeners w)) w.

End Zustand.

(* ================================================================== *)
(** ** The deepmerge dependency, as [deepMergeState] drives it *)
(* ================================================================== *)

Module Deepmerge.

(** Allocation while merging: a counter of identities; [None] only when the
    recursion budget runs out. *)
Definition M (A : Type) : Type := ref -> option (A * ref).
Definition ret {A : Type} (a : A) : M A := fun n => Some (a, n).
Definition bind {A B : Type} (m : M A) (f : A -> M B) : M B :=
  fun n => match m n with Some (a, n') => f a n' | None => None end.
Definition new_id : M ref := fun n => Some (n, S n).

Notation "x <- m ;; k" := (bind m (fun x => k))
  (at level 61, m at next level, right associativity).

Fixpoint foldM {A B : Type} (f : A -> B -> M A) (l : list B) (a : A) : M A :=
  match l with
  | [] => ret a
  | b :: rest => a' <- f a b ;; foldM f rest a'
  end.

Record Options := mkOptions {
  clone : bool;
  arrayMerge : value -> value -> ref -> value * ref
}.

(** Non-null objects other than Date, RegExp and React elements (none of
    which the value model has). *)
Definition isMergeableObject (v : value) : bool :=
  match v with
  | VErr _ _ | VArr _ _ | VObj _ _ => true
  | _ => false
  end.

(** The names every object inherits from [Object.prototype]. *)
Definition Object_prototype : list string :=
  [ "constructor"; "__defineGetter__"; "__defineSetter__"; "hasOwnProperty";
    "__lookupGetter__"; "__lookupSetter__"; "isPrototypeOf";
    "propertyIsEnumerable"; "toString"; "valueOf"; "__proto__";
    "toLocaleString" ].

(** [property in object]; on a primitive [in] throws and the library
    answers false.  For a target that is no plain object only the names of
    [Object.prototype] are accounted for. *)
Definition propertyIsOnObject (object : value) (property : string) : bool :=
  match object with
  | VObj _ ps => has_key property ps || existsb (String.eqb property) Object_prototype
  | VErr _ _ | VArr _ _ | VFun _ => existsb (String.eqb property) Object_prototype
  | _ => false
  end.

Definition propertyIsUnsafe (target : value) (key : string) : bool :=
  propertyIsOnObject target key && negb (hasOwnProperty target key).

Section OneLevel.
Variable options : Options.
(** [deepmerge] itself, for the calls one level down. *)
Variable rec : value -> value -> M value.

Definition emptyTarget (val : value) : M value :=
  id <- new_id ;;
  ret (if isArray val then VArr id [] else VObj id []).

Definition cloneUnlessOtherwiseSpecified (v : value) : M value :=
  if clone options && isMergeableObject v
  then t <- emptyTarget v ;; rec t v
  else ret v.

Definition mergeObject (target source : value) : M value :=
  id <- new_id ;;
  d1 <- (if isMergeableObject target
         then foldM (fun destination key =>
                       v <- cloneUnlessOtherwiseSpecified (get target key) ;;
                       ret (set_prop key v destination))
                    (keys (own_props target)) []
         else ret []) ;;
  d2 <- foldM (fun destination key =>
                 if propertyIsUnsafe target key then ret destination
                 else if propertyIsOnObject target key
                         && isMergeableObject (get source key)
                 then v <- rec (get target key) (get source key) ;;
                      ret (set_prop key v destination)
                 else v <- cloneUnlessOtherwiseSpecified (get source key) ;;
                      ret (set_prop key v destination))
              (keys (own_props source)) d1 ;;
  ret (VObj id d2).
End OneLevel.

(** Modelled from the spec: the deep merge of section 4.2 (recursive merge
    by key, arrays handed to the policy of the call, objects merged key by
    key, neither input mutated), in the steps of the deepmerge package that
    base.ts imports; the package is not under src/.  Where an array meets a
    non-array the source wins; a key the target only inherits is skipped;
    with [clone] a value taken over is copied by merging it into an empty
    container.  [fuel] bounds the depth of the recursion. *)
Fixpoint deepmerge (fuel : nat) (options : Options) (target source : value)
  : M value :=
  match fuel with
  | 0 => fun _ => None
  | S fuel' =>
      let sourceIsArray := isArray source in
      let targetIsArray := isArray target in
      let sourceAndTargetTypesMatch := Bool.eqb sourceIsArray targetIsArray in
      if negb sourceAndTargetTypesMatch
      then cloneUnlessOtherwiseSpecified options (deepmerge fuel' options) source
      else if sourceIsArray
      then fun n => Some (arrayMerge options target source n)
      else mergeObject options (deepmerge fuel' options) target source
  end.

(** A recursion budget no merge of [target] and [source] exhausts
    ([deepmerge_total] below). *)
Definition budget (target source : value) : nat :=
  2 * Nat.max (depth target) (depth source) + 2.

End Deepmerge.

(* ================================================================== *)
(** ** base.ts *)
(* ================================================================== *)

Inductive ArrayMerge := AMconcat | AMreplace | AMmerge_by_index.

Definition ArrayMerge_eqb (a b : ArrayMerge) : bool :=
  match a, b with
  | AMconcat, AMconcat | AMreplace, AMreplace
  | AMmerge_by_index, AMmerge_by_index => true
  | _, _ => false
  end.

(** types.ts, [DeepMergeOptions]: both fields optional. *)
Record DeepMergeOptions := mkDeepMergeOptions {
  opt_arrayMerge : option ArrayMerge;
  opt_clone : option bool
}.

Definition no_merge_options : DeepMergeOptions := mkDeepMergeOptions None None.

(** The [arrayMerge] callback [deepMergeState] gives to deepmerge
    (base.ts 40-48). *)
Definition arrayMerge_callback (arrayMerge : ArrayMerge)
    (destinationArray sourceArray : value) (n : ref) : value * ref :=
  if ArrayMerge_eqb arrayMerge AMconcat
  then (VArr n (elems_of destinationArray ++ elems_of sourceArray), S n)
  else if ArrayMerge_eqb arrayMerge AMreplace
  then (sourceArray, n)
  else (sourceArray, n).

(** base.ts 27-52.  The result comes with the allocation counter.  The
    budget given to [deepmerge] is never exhausted
    ([deepMergeState_runs_deepmerge]), so the last branch is never taken. *)
Definition deepMergeState (current : value) (partial : PartialState)
    (options : DeepMergeOptions) (n : ref) : value * ref :=
  let arrayMerge :=
    match opt_arrayMerge options with Some a => a | None => AMmerge_by_index end in
  let clone := match opt_clone options with Some c => c | None => true end in
  match partial with
  | Updater _ _ => (VObj n (spread current), S n)
  | Partial p =>
      let mergeOptions :=
        Deepmerge.mkOptions clone (arrayMerge_callback arrayMerge) in
      match Deepmerge.deepmerge (Deepmerge.budget current p) mergeOptions
                                current p n with
      | Some r => r
      | None => (current, n)
      end
  end.

Inductive MergeStrategy := Shallow | Deep | Replace.

(** types.ts, [SubscribeOptions]. *)
Record SubscribeOptions := mkSubscribeOptions {
  fireImmediately : option bool
}.

Definition no_options : SubscribeOptions := mkSubscribeOptions None.

Module StoreHelper.

Definition getState (w : world) : value := Zustand.getState w.

(** base.ts 164-166. *)
Definition setState (partial : PartialState) (w : world) : world :=
  Zustand.setState partial None w.

(** base.ts 171-173. *)
Definition replaceState (s : value) (w : world) : world :=
  Zustand.setState (Partial s) (Some true) w.

(** base.ts 178-195. *)
Definition mergeState (partial : PartialState) (strategy : option MergeStrategy)
    (w : world) : world :=
  let strategy := match strategy with Some s => s | None => Shallow end in
  let current := getState w in
  match strategy with
  | Shallow => setState partial w
  | Deep =>
      let '(merged, n) := deepMergeState current partial no_merge_options
                                         (next_ref w) in
      setState (Partial merged)
               (mkWorld n (state w) (listeners w) (historyRef w) (trace w))
  | Replace =>
      match partial with
      | Updater _ edit =>
          let '(id, w1) := fresh w in
          let draft := VObj id (edit (spread current)) in
          setState (Partial draft) w1
      | Partial p => replaceState p w
      end
  end.

(** base.ts 200-202. *)
Definition resetState (initialState : value) (w : world) : world :=
  replaceState initialState w.

(** base.ts 207-219.  The handle of the registered listener stands for the
    unsubscribe closure the method returns. *)
Definition subscribe (callback : ref) (options : SubscribeOptions) (w : world)
  : listener * world :=
  let fire := match fireImmediately options with Some b => b | None => false end in
  let w1 := if fire
            then log (Call callback [getState w; getState w]) w
            else w in
  (Callback callback, Zustand.subscribe (Callback callback) w1).

(** base.ts 224-243. *)
Definition subscribeTo (key : string) (callback : ref)
    (options : SubscribeOptions) (w : world) : listener * world :=
  let fire := match fireImmediately options with Some b => b | None => false end in
  let '(id, w0) := fresh w in
  let wrappedCallback := FieldWatcher id key callback in
  let w1 := if fire
            then let current := getState w0 in
                 log (Call callback [get current key; get current key]) w0
            else w0 in
  (wrappedCallback, Zustand.subscribe wrappedCallback w1).

(** base.ts 262-267. *)
Definition batchUpdate (updater : props -> props) (w : world) : world :=
  let st := getState w in
  let '(id, w1) := fresh w in
  let newState := VObj id (updater (spread st)) in
  setState (Partial newState) w1.

End StoreHelper.

(** The outcome of the awaited operation, and how an async function ends. *)
Inductive settled := Resolved (result : value) | Rejected (error : value).
Inductive completion := Returned (v : value) | Thrown (e : value).

Record AsyncOptions := mkAsyncOptions {
  setLoading : bool;
  setError : bool
}.

Definition default_async_options : AsyncOptions := mkAsyncOptions true true.

(** base.ts 352-354: the commit made before the operation is started. *)
Definition announce (options : AsyncOptions) (w : world) : world :=
  if setLoading options
  then let '(id, w') := fresh w in
       Zustand.setState
         (Partial (VObj id [("_isLoading", VBool true); ("_error", VNull)]))
         None w'
  else w.

Section Hybrid.
(** [String(v)], used to build the message of a wrapped throwable. *)
Variable String_of : value -> string.

(** base.ts 356-374: what follows the [await], on either outcome.  [now] is
    what [Date.now()] answers then. *)
Definition settle (options : AsyncOptions) (now : Z) (outcome : settled)
    (w : world) : completion * world :=
  match outcome with
  | Resolved result =>
      let '(id, w1) := fresh w in
      let w2 :=
        Zustand.setState
          (Partial (VObj id [("_isLoading", VBool false); ("_error", VNull);
                             ("_lastUpdate", VNum now)]))
          None w1 in
      (Returned result, w2)
  | Rejected error =>
      let '(errorObj, w1) :=
        if instanceof_Error error then (error, w)
        else let '(id, w') := fresh w in (VErr id (String_of error), w') in
      let w3 :=
        if setError options
        then let '(id, w2) := fresh w1 in
             Zustand.setState
               (Partial (VObj id [("_isLoading", VBool false);
                                  ("_error", errorObj);
                                  ("_lastUpdate", VNum now)]))
               None w2
        else w1 in
      (Thrown errorObj, w3)
  end.

(** base.ts 347-375.  [operation] is all that happens between the call of
    the operation and its settlement: what it, and whatever ran while it was
    pending, did to the world, and how it settled. *)
Definition wrapAsyncOperation (operation : world -> settled * world)
    (options : option AsyncOptions) (now : Z) (w : world)
  : completion * world :=
  let options :=
    match options with Some o => o | None => default_async_options end in
  let w1 := announce options w in
  let '(outcome, w2) := operation w1 in
  settle options now outcome w2.
End Hybrid.

(* ================================================================== *)
(** ** hooks.ts: [useHistoryState] *)
(* ================================================================== *)

(** [arr.pop()]: the last element (or [undefined]) and the array without it. *)
Definition pop (l : list value) : value * list value :=
  (last l VUndefined, removelast l).

(** hooks.ts 389-407: the history record is created and the tracker's
    listener is subscribed to the store ([useSyncExternalStore] calls
    [subscribe] with its own change callback, [onStoreChange]). *)
Definition useHistoryState (maxSize : option Z) (onStoreChange : ref)
    (w : world) : listener * world :=
  let maxSize := match maxSize with Some n => n | None => 10%Z end in
  let w1 := with_history {| past := []; present := Zustand.getState w;
                            future := [] |} w in
  let '(id, w2) := fresh w1 in
  let l := HistoryListener id maxSize onStoreChange in
  (l, Zustand.subscribe l w2).

(** hooks.ts 409-417. *)
Definition undo (w : world) : bool * world :=
  let h := historyRef w in
  let '(previous, past') := pop (past h) in
  let w1 := with_history {| past := past'; present := present h;
                            future := future h |} w in
  if truthy previous
  then
    let w2 := with_history {| past := past'; present := present h;
                              future := future h ++ [present h] |} w1 in
    (true, Zustand.setState (Partial previous) None w2)
  else (false, w1).

(** hooks.ts 419-427. *)
Definition redo (w : world) : bool * world :=
  let h := historyRef w in
  let '(next, future') := pop (future h) in
  let w1 := with_history {| past := past h; present := present h;
                            future := future' |} w in
  if truthy next
  then
    let w2 := with_history {| past := past h ++ [present h]; present := present h;
                              future := future' |} w1 in
    (true, Zustand.setState (Partial next) None w2)
  else (false, w1).

(** hooks.ts 429-430. *)
Definition canUndo (w : world) : bool := Nat.ltb 0 (List.length (past (historyRef w))).
Definition canRedo (w : world) : bool := Nat.ltb 0 (List.length (future (historyRef w))).

(* ================================================================== *)
(** ** Vocabulary of the statements *)
(* ================================================================== *)

(** The calls a listener makes when notified. *)
Definition emitted (st previousState : value) (l : listener) : list event :=
  match l with
  | Callback cb => [Call cb [st; previousState]]
  | FieldWatcher _ key cb =>
      if strict_neq (get st key) (get previousState key)
      then [Call cb [get st key; get previousState key]]
      else []
  | HistoryListener _ _ onStoreChange => [Call onStoreChange []]
  end.

(** The caller-supplied function a listener ends up calling. *)
Definition callee (l : listener) : ref :=
  match l with
  | Callback cb => cb
  | FieldWatcher _ _ cb => cb
  | HistoryListener _ _ onStoreChange => onStoreChange
  end.

(** The value [setState] compares with the current state. *)
Definition resolved (partial : PartialState) (w : world) : value :=
  match partial with
  | Updater apply _ => apply (state w)
  | Partial v => v
  end.

(** Any number of [setState] calls, one after the other. *)
Definition mutations (ms : list (PartialState * option bool)) (w : world) : world :=
  fold_left (fun acc m => Zustand.setState (fst m) (snd m) acc) ms w.

(** The identity of the current state was handed out by the allocator. *)
Definition allocated (w : world) : Prop :=
  match ref_of (state w) with Some i => i < next_ref w | None => True end.

Import Deepmerge.

(** What a merge of [target] and [source] needs: two levels of recursion
    per level of nesting, and one more when an array meets a non-array. *)
Definition need (target source : value) : nat :=
  2 * Nat.max (depth target) (depth source)
  + (if Bool.eqb (isArray source) (isArray target) then 0 else 1).

Definition total_at (fuel : nat) (options : Options) : Prop :=
  forall t s n, need t s < fuel ->
    exists r n', deepmerge fuel options t s n = Some (r, n').

(** The two loop bodies of [mergeObject]. *)
Definition target_step (options : Options) (rec : value -> value -> M value)
    (target : value) (destination : props) (key : string) : M props :=
  v <- cloneUnlessOtherwiseSpecified options rec (get target key) ;;
  ret (set_prop key v destination).

Definition source_step (options : Options) (rec : value -> value -> M value)
    (target source : value) (destination : props) (key : string) : M props :=
  if propertyIsUnsafe target key then ret destination
  else if propertyIsOnObject target key && isMergeableObject (get source key)
  then v <- rec (get target key) (get source key) ;;
       ret (set_prop key v destination)
  else v <- cloneUnlessOtherwiseSpecified options rec (get source key) ;;
       ret (set_prop key v destination).

Definition is_tracker (l : listener) : bool :=
  match l with HistoryListener _ _ _ => true | _ => false end.

Definition no_tracker (ls : list listener) : Prop :=
  Forall (fun l => is_tracker l = false) ls.

(** The listeners hold the tracker's listener, bound [N], exactly once. *)
Definition one_tracker (N : Z) (ls : list listener) : Prop :=
  exists ls1 id onStoreChange ls2,
    ls = ls1 ++ HistoryListener id N onStoreChange :: ls2
    /\ no_tracker ls1 /\ no_tracker ls2.

(** An object whose identity the allocator has handed out. *)
Definition object_below (n : ref) (v : value) : Prop :=
  match v with VObj id _ => id < n | _ => False end.

(** What holds of a store with a subscribed tracker between operations. *)
Record tracking (N : Z) (w : world) : Prop := mkTracking {
  trk_listener : one_tracker N (listeners w);
  trk_state : object_below (next_ref w) (state w);
  trk_past : Forall (object_below (next_ref w)) (past (historyRef w));
  trk_last : past (historyRef w) = []
             \/ Object_is (last (past (historyRef w)) VUndefined) (state w) = false;
  trk_future : future (historyRef w) = [];
  trk_bound : (Z.of_nat (List.length (past (historyRef w))) <= N)%Z
}.

(** One operation on a tracked store: the caller allocates an object, a
    [setState] hands the store an allocated object, [undo()] or [redo()]. *)
Inductive operation_step : world -> world -> Prop :=
| step_allocate (w : world) : operation_step w (snd (fresh w))
| step_setState (w : world) (partial : PartialState) (replace : option bool) :
    object_below (next_ref w) (resolved partial w) ->
    operation_step w (Zustand.setState partial replace w)
| step_undo (w : world) : operation_step w (snd (undo w))
| step_redo (w : world) : operation_step w (snd (redo w)).

Inductive operation_steps : world -> world -> Prop :=
| steps_none (w : world) : operation_steps w w
| steps_more (w w1 w2 : world) :
    operation_steps w w1 -> operation_step w1 w2 -> operation_steps w w2.

(* ================================================================== *)
(** ** Sample stores *)
(* ================================================================== *)

(** A store holding [{count: 0, step: 1}] with one plain subscriber. *)
Definition counter_state : value := VObj 0 [("count", VNum 0); ("step", VNum 1)].

Definition counter_world : world :=
  mkWorld 2 counter_state [Callback 1] (mkHistory [] VUndefined []) [].

(** A hybrid store: [data] beside the three bookkeeping fields, and one
    plain subscriber. *)
Definition hybrid_state : value :=
  VObj 0 [("data", VObj 1 [("user", VNull)]); ("_isLoading", VBool false);
          ("_error", VNull); ("_lastUpdate", VNum 0)].

Definition hybrid_world : world :=
  mkWorld 3 hybrid_state [Callback 2] (mkHistory [] VUndefined []) [].

Definition message_of (v : value) : string :=
  match v with VStr s => s | _ => "" end.

(** An operation that resolves with a user record and writes nothing. *)
Definition ann : value := VObj 50 [("user", VStr "ann")].

Definition login (w : world) : settled * world := (Resolved ann, w).

(** A counter store in state A, [{count: 0, step: 1}], with no listener. *)
Definition state_A : value := VObj 0 [("count", VNum 0); ("step", VNum 1)].

Definition store_A : world :=
  mkWorld 1 state_A [] (mkHistory [] VUndefined []) [].

(** A forward mutation: [store.setState({count: n})]. *)
Definition set_count (n : Z) (w : world) : world :=
  let '(id, w1) := fresh w in
  Zustand.setState (Partial (VObj id [("count", VNum n)])) None w1.

Definition counts (l : list value) : list value :=
  map (fun s => get s "count") l.

(** [{items: [1, 2]}] merged with [{items: [3]}]. *)
Definition items_12 : value := VObj 0 [("items", VArr 1 [VNum 1; VNum 2])].

Definition items_3 : value := VObj 2 [("items", VArr 3 [VNum 3])].

(* ================================================================== *)
(** ** hooks.ts: what the read hooks compute *)
(* ================================================================== *)

(** The key of an array index, as [Object.keys] gives it. *)
Definition index_key (i : nat) : string :=
  DecimalString.NilEmpty.string_of_uint (Nat.to_uint i).

(** [Object.keys(v)] with the values: the own enumerable properties of an
    object, the indices of an array; an Error instance has none. *)
Definition enumerable_props (v : value) : props :=
  match v with
  | VObj _ ps => ps
  | VArr _ es => combine (map index_key (seq 0 (List.length es))) es
  | _ => []
  end.

(** The own property [k] of [v], enumerable or not: besides the above, the
    [length] of an array and the [message] of an Error instance (the
    engine's [stack] is left out). *)
Definition own_property (v : value) (k : string) : option value :=
  match v with
  | VObj _ ps => lookup k ps
  | VArr _ es =>
      match lookup k (enumerable_props v) with
      | Some x => Some x
      | None => if String.eqb k "length"
                then Some (VNum (Z.of_nat (List.length es)))
                else None
      end
  | VErr _ m => if String.eqb k "message" then Some (VStr m) else None
  | _ => None
  end.

(** [v[k]] for an own property, [undefined] otherwise. *)
Definition read (v : value) (k : string) : value :=
  match own_property v k with Some x => x | None => VUndefined end.

(** [v == null]. *)
Definition nullish (v : value) : bool :=
  match v with VUndefined | VNull => true | _ => false end.

(** Nesting depth, arrays included. *)
Fixpoint height (v : value) : nat :=
  match v with
  | VArr _ es => S (list_max (map height es))
  | VObj _ ps => S (list_max (map (fun p => height (snd p)) ps))
  | _ => 0
  end.

(** hooks.ts 19-42, with the depth of the recursion bounded by [fuel].
    The numbers of the embedding are whole numbers: NaN, the one value that
    is not [===] itself, is not among the values, so what is proved of
    [deepEquals] is proved of values that hold no NaN. *)
Fixpoint deepEquals_upto (fuel : nat) (a b : value) : bool :=
  match fuel with
  | 0 => false
  | S fuel' =>
      if strict_eq a b then true
      else if nullish a || nullish b then false
      else if negb (typeof_object a) || negb (typeof_object b) then false
      else
        let keysA := keys (enumerable_props a) in
        let keysB := keys (enumerable_props b) in
        if negb (Nat.eqb (List.length keysA) (List.length keysB)) then false
        else
          forallb (fun key =>
                     match own_property b key with
                     | None => false
                     | Some y => deepEquals_upto fuel' (read a key) y
                     end)
                  keysA
  end.

(** hooks.ts 19-42.  The recursion follows [a], so the height of [a] bounds
    it ([deepEquals_upto_enough]). *)
Definition deepEquals (a b : value) : bool :=
  deepEquals_upto (S (height a)) a b.

(** A getter (types.ts, [Getter]): a function of the state that may build
    its result anew on every call, drawing identities from the counter. *)
Definition Getter : Type := value -> ref -> value * ref.

(** hooks.ts 296-312: the [getSnapshot] closure of [createGetterHook].
    [prevRef] is [prevRef.current] before the call; the result comes with
    [prevRef.current] after it. *)
Definition getter_snapshot (getter : Getter)
    (customEquals : option (value -> value -> bool))
    (prevRef : value) (w : world) : value * value * world :=
  let '(current, n) := getter (Zustand.getState w) (next_ref w) in
  let w' := mkWorld n (state w) (listeners w) (historyRef w) (trace w) in
  if strict_eq prevRef VNull then (current, current, w')
  else
    let equalsFn :=
      match customEquals with Some f => f | None => deepEquals end in
    if equalsFn prevRef current then (prevRef, prevRef, w')
    else (current, current, w').

(** The snapshots one closure returns when it is called in the worlds
    [ws], one after the other. *)
Fixpoint getter_snapshots (getter : Getter)
    (customEquals : option (value -> value -> bool))
    (prevRef : value) (ws : list world) : list value :=
  match ws with
  | [] => []
  | w :: rest =>
      let '(result, prevRef', _) := getter_snapshot getter customEquals prevRef w in
      result :: getter_snapshots getter customEquals prevRef' rest
  end.



(** base.ts 318-342: the store [createHybridStore] returns, with no
    listener yet; [now] is what [Date.now()] answers and [n] the next free
    identity. *)
Definition createHybridStore (initialState : value) (now : Z) (n : ref) : world :=
  mkWorld (S n)
    (VObj n [("data", initialState); ("_isLoading", VBool false);
             ("_error", VNull); ("_lastUpdate", VNum now)])
    [] (mkHistory [] VUndefined []) [].

(** [v ?? d]. *)
Definition coalesce (v d : value) : value := if nullish v then d else v.

(** hooks.ts 171-230: the [getSnapshot] closures of [createHybridHook]. *)
Definition useData (w : world) : value := get (Zustand.getState w) "data".
Definition useLoading (w : world) : value :=
  coalesce (get (Zustand.getState w) "_isLoading") (VBool false).
Definition useError (w : world) : value :=
  coalesce (get (Zustand.getState w) "_error") VNull.
Definition useLastUpdate (w : world) : value :=
  get (Zustand.getState w) "_lastUpdate".

(** A value with the identities of its containers and Error instances
    (and the messages of the latter) forgotten; functions keep theirs. *)
Fixpoint strip (v : value) : value :=
  match v with
  | VErr _ _ => VErr 0 EmptyString
  | VArr _ es => VArr 0 (map strip es)
  | VObj _ ps => VObj 0 (map (fun p => (fst p, strip (snd p))) ps)
  | _ => v
  end.

(** Getters of the kind the examples define: one that builds a summary
    object anew on every call, and one that hands out the stored error. *)
Definition count_summary : Getter :=
  fun st n => (VObj n [("total", get st "count")], S n).

(** The counter store after [step] was set to 5. *)
Definition counter_world_step5 : world :=
  mkWorld 9 (VObj 8 [("count", VNum 0); ("step", VNum 5)]) [Callback 1]
          (mkHistory [] VUndefined []) [].

(** A hybrid store whose last operation failed with ["second"]. *)
Definition failed_world : world :=
  mkWorld 9 (VObj 8 [("data", VObj 1 [("user", VNull)]);
                     ("_isLoading", VBool false);
                     ("_error", VErr 7 "second"); ("_lastUpdate", VNum 5)])
          [] (mkHistory [] VUndefined []) [].

(* ================================================================== *)
(** ** base.ts: the stores the examples create *)
(* ================================================================== *)

(** base.ts 93-113: [createImmerStore] starts from the object it is given,
    as it is, with no listener yet; [n] is the next free identity. *)
Definition createImmerStore (initialState : value) (n : ref) : world :=
  mkWorld n initialState [] (mkHistory [] VUndefined []) [].

(** base.ts 287-313: [createStoreWithActions] starts from a new object,
    [{...initialState, ...actions}]. *)
Definition createStoreWithActions (initialState actions : value) (n : ref)
  : world :=
  mkWorld (S n)
    (VObj n (assign_from (assign_from [] (own_props initialState))
                         (own_props actions)))
    [] (mkHistory [] VUndefined []) [].

(* ================================================================== *)
(** ** examples/counter.example.ts: the counter actions *)
(* ================================================================== *)

(** The actions of the examples are methods whose [this] is typed as the
    store (types.ts, [Action]); each is modelled as run with the store as its
    receiver, so that [this.getState()] and [this.setState(...)] are the
    store's.

    The binary [+] and [-] of the language compute on double-precision
    numbers ([+] also joins strings), which the whole numbers of this
    embedding do not reproduce.  An action that uses one takes it as a
    parameter, and nothing is assumed of it: what is proved of the action
    holds whatever the operator answers. *)
Definition operator : Type := value -> value -> value.

(** Addition and subtraction of whole numbers, for the examples: what [+]
    and [-] answer on two safe integers whose sum, respectively difference,
    is a safe integer.  The examples use them at such operands only. *)
Definition whole_plus : operator :=
  fun a b => match a, b with VNum x, VNum y => VNum (x + y) | _, _ => VUndefined end.
Definition whole_minus : operator :=
  fun a b => match a, b with VNum x, VNum y => VNum (x - y) | _, _ => VUndefined end.

Module Counter.

(** counter.example.ts 34-37; [id] is the identity of that object. *)
Definition initialCounterState (id : ref) : value :=
  VObj id [("count", VNum 0); ("step", VNum 1)].

(** counter.example.ts 40-43; [plus] is the [+] of line 42. *)
Definition increment (plus : operator) (w : world) : world :=
  let st := Zustand.getState w in
  let '(id, w1) := fresh w in
  Zustand.setState
    (Partial (VObj id [("count", plus (get st "count") (get st "step"))]))
    None w1.

(** counter.example.ts 44-47; [minus] is the [-] of line 46. *)
Definition decrement (minus : operator) (w : world) : world :=
  let st := Zustand.getState w in
  let '(id, w1) := fresh w in
  Zustand.setState
    (Partial (VObj id [("count", minus (get st "count") (get st "step"))]))
    None w1.

(** counter.example.ts 48-50. *)
Definition reset (id : ref) (w : world) : world :=
  Zustand.setState (Partial (initialCounterState id)) None w.

(** counter.example.ts 51-53. *)
Definition setStep (step : value) (w : world) : world :=
  let '(id, w1) := fresh w in
  Zustand.setState (Partial (VObj id [("step", step)])) None w1.

(** counter.example.ts 54-57; [plus] is the [+] of line 56. *)
Definition incrementBy (plus : operator) (amount : value) (w : world) : world :=
  let st := Zustand.getState w in
  let '(id, w1) := fresh w in
  Zustand.setState
    (Partial (VObj id [("count", plus (get st "count") amount)]))
    None w1.

End Counter.

(** What an action that commits a literal with the one field [k] leaves. *)
Definition one_field_outcome (w w' : world) (k : string) (v : value) : Prop :=
  get (state w') k = v
  /\ (forall k', k' <> k -> get (state w') k' = get (state w) k')
  /\ allocated w'
  /\ listeners w' = listeners w
  /\ ref_of (state w') = Some (S (next_ref w))
  /\ next_ref w' = S (S (next_ref w))
  /\ trace w' = trace w ++ flat_map (emitted (state w') (state w)) (listeners w).

(* ================================================================== *)
(** ** examples/cart.example.ts: cart actions and the item count *)
(* ================================================================== *)

Module Cart.

(** [state.items.filter((item) => item.id !== itemId)], without the
    array that holds the result. *)
Definition without (itemId : value) (items : list value) : list value :=
  filter (fun item => strict_neq (get item "id") itemId) items.

(** [state.items.map((item) => item.id === itemId ? { ...item, quantity } :
    item)], without the array that holds the result: every match is a new
    object. *)
Fixpoint with_quantity (itemId quantity : value) (items : list value) (n : ref)
  : list value * ref :=
  match items with
  | [] => ([], n)
  | item :: rest =>
      if strict_eq (get item "id") itemId
      then let item' := VObj n (set_prop "quantity" quantity (spread item)) in
           let '(rest', n') := with_quantity itemId quantity rest (S n) in
           (item' :: rest', n')
      else let '(rest', n') := with_quantity itemId quantity rest n in
           (item :: rest', n')
  end.

(** cart.example.ts 104-108. *)
Definition removeItem (itemId : value) (w : world) : world :=
  let st := Zustand.getState w in
  let '(arr, w1) := fresh w in
  let items := VArr arr (without itemId (elems_of (get st "items"))) in
  let '(id, w2) := fresh w1 in
  Zustand.setState (Partial (VObj id [("items", items)])) None w2.

(** cart.example.ts 109-120; [quantity] is a whole number. *)
Definition updateQuantity (itemId : value) (quantity : Z) (w : world) : world :=
  let st := Zustand.getState w in
  if (quantity <=? 0)%Z
  then
    let '(arr, w1) := fresh w in
    let items := VArr arr (without itemId (elems_of (get st "items"))) in
    let '(id, w2) := fresh w1 in
    Zustand.setState (Partial (VObj id [("items", items)])) None w2
  else
    let '(arr, w1) := fresh w in
    let '(mapped, n) := with_quantity itemId (VNum quantity)
                          (elems_of (get st "items")) (next_ref w1) in
    let items := VArr arr mapped in
    let w2 := mkWorld (S n) (state w) (listeners w) (historyRef w) (trace w) in
    Zustand.setState (Partial (VObj n [("items", items)])) None w2.

(** cart.example.ts 121-123. *)
Definition clearCart (w : world) : world :=
  let '(arr, w1) := fresh w in
  let '(id, w2) := fresh w1 in
  Zustand.setState
    (Partial (VObj id [("items", VArr arr []); ("couponCode", VNull);
                       ("discount", VNum 0)]))
    None w2.

(** cart.example.ts 148-150; [plus] is the [+] of line 149. *)
Definition getTotalItems (plus : operator) (st : value) : value :=
  fold_left (fun sum item => plus sum (get item "quantity"))
            (elems_of (get st "items")) (VNum 0).

End Cart.

(* ================================================================== *)
(** ** examples/counter.example.ts (the todo store): toggleAll *)
(* ================================================================== *)

Module Todo.

(** [state.todos.map((todo) => ({ ...todo, completed, updatedAt:
    Date.now() }))], without the array that holds the result; [clock i] is
    what [Date.now()] answers for the element at index [i]. *)
Fixpoint marked (completed : value) (clock : nat -> Z) (i : nat)
    (todos : list value) (n : ref) : list value * ref :=
  match todos with
  | [] => ([], n)
  | todo :: rest =>
      let todo' :=
        VObj n (set_prop "updatedAt" (VNum (clock i))
                  (set_prop "completed" completed (spread todo))) in
      let '(rest', n') := marked completed clock (S i) rest (S n) in
      (todo' :: rest', n')
  end.

(** counter.example.ts 233-242. *)
Definition toggleAll (clock : nat -> Z) (w : world) : world :=
  let st := Zustand.getState w in
  let allCompleted :=
    forallb (fun todo => truthy (get todo "completed"))
            (elems_of (get st "todos")) in
  let '(arr, w1) := fresh w in
  let '(mapped, n) := marked (VBool (negb allCompleted)) clock 0
                        (elems_of (get st "todos")) (next_ref w1) in
  let w2 := mkWorld (S n) (state w) (listeners w) (historyRef w) (trace w) in
  Zustand.setState (Partial (VObj n [("todos", VArr arr mapped)])) None w2.

End Todo.

(** A cart with two lines, and a todo list with one item done. *)
Definition cart_state : value :=
  VObj 0 [("items", VArr 1 [VObj 2 [("id", VStr "a"); ("quantity", VNum 2)];
                            VObj 3 [("id", VStr "b"); ("quantity", VNum 1)]]);
          ("couponCode", VStr "SAVE"); ("discount", VNum 10);
          ("taxRate", VNum 0); ("shipping", VNum 5)].
Definition cart_world : world :=
  mkWorld 4 cart_state [] (mkHistory [] VUndefined []) [].
Definition todo_state : value :=
  VObj 0 [("todos", VArr 1 [VObj 2 [("id", VStr "x"); ("completed", VBool true)];
                            VObj 3 [("id", VStr "y"); ("completed", VBool false)]])].
Definition todo_world : world :=
  mkWorld 4 todo_state [] (mkHistory [] VUndefined []) [].

(** How [updateQuantity] relates an item to the item it maps it to: an
    item with that id to a new object, one with an identity handed out at
    [floor] or later, that has the new quantity and every other field as
    before; any other item to itself. *)
Definition requantified (floor : ref) (itemId : value) (quantity : Z)
    (old new : value) : Prop :=
  if strict_eq (get old "id") itemId
  then (exists id ps, floor <= id /\ new = VObj id ps)
       /\ get new "quantity" = VNum quantity
       /\ forall k, k <> "quantity" -> get new k = get old k
  else new = old.

(** [todo.completed], as a condition. *)
Definition completed (todo : value) : bool := truthy (get todo "completed").

(** How [toggleAll] relates a todo to the todo it maps it to. *)
Definition marked_as (target : bool) (old new : value) : Prop :=
  get new "completed" = VBool target
  /\ forall k, k <> "completed" -> k <> "updatedAt" -> get new k = get old k.

(** What one watcher of [key] hears of a commit from [previous] to [st]. *)
Definition heard (key : string) (st previous : value) : list (list value) :=
  if strict_neq (get st key) (get previous key)
  then [[get st key; get previous key]]
  else [].

(* ================================================================== *)
(** ** The database helper: [paginate] *)
(* ================================================================== *)

Module Database.

(** The two fields [paginate] reads of its options; [None] is a field that
    is null or undefined ([isNil]).  Page and limit are whole numbers: a
    fractional or NaN page or limit is outside this model. *)
Record PaginateOptions := mkPaginateOptions {
  page : option Z;
  limit : option Z
}.

(** [Number.MAX_SAFE_INTEGER] and [Number.isSafeInteger], on whole
    numbers. *)
Definition MAX_SAFE_INTEGER : Z := 2 ^ 53 - 1.
Definition isSafeInteger (z : Z) : Prop :=
  (- MAX_SAFE_INTEGER <= z <= MAX_SAFE_INTEGER)%Z.

(** The options on which the arithmetic of [paginate] is exact in double
    precision, so that whole numbers compute what the code computes: page
    and limit, where given, are safe integers, and so is the largest number
    line 47 forms, [start + limit]. *)
Definition whole (options : PaginateOptions) : Prop :=
  let p := match page options with Some p => p | None => 1%Z end in
  let l := match limit options with Some l => l | None => 1%Z end in
  isSafeInteger p /\ isSafeInteger l
  /\ isSafeInteger (Z.max p 1 * Z.max l 1 + 1).

Record PaginateMeta := mkPaginateMeta {
  totalItems : Z;
  itemCount : Z;
  perPage : Z;
  totalPages : Z;
  currentPage : Z
}.

Record PaginateReturn (A : Type) := mkPaginateReturn {
  items : list A;
  meta : PaginateMeta
}.
Arguments mkPaginateReturn {A}.
Arguments items {A}.
Arguments meta {A}.

(** [Array.prototype.slice(start, end)]: a negative bound counts from the
    end, and both are clamped to the array. *)
Definition slice {A : Type} (start final : Z) (l : list A) : list A :=
  let len := Z.of_nat (List.length l) in
  let k := if (start <? 0)%Z then Z.max (len + start) 0 else Z.min start len in
  let e := if (final <? 0)%Z then Z.max (len + final) 0 else Z.min final len in
  firstn (Z.to_nat (e - k)) (skipn (Z.to_nat k) l).

(** part_004 37-67, on whole numbers; the value the returned promise is
    fulfilled with. *)
Definition paginate {A : Type} (data : list A) (options : PaginateOptions)
  : PaginateReturn A :=
  let limit :=
    match limit options with
    | None => 1
    | Some l => if l <? 1 then 1 else l
    end%Z in
  let page :=
    match page options with
    | None => 1
    | Some p => if p <? 1 then 1 else p
    end%Z in
  let start := (if 1 <? page then (page - 1) * limit + 1 else 0)%Z in
  let items := slice start (start + limit) data in
  let total := Z.of_nat (List.length data) in
  let totalPages :=
    (if Z.rem total limit =? 0 then total / limit else total / limit + 1)%Z in
  let remainder :=
    (if negb (Z.rem total limit =? 0) then Z.rem total limit else limit)%Z in
  let itemCount := (if page <? totalPages then limit else remainder)%Z in
  mkPaginateReturn items
    (mkPaginateMeta total itemCount limit totalPages page).

End Database.

(* ================================================================== *)
(** ** Properties of values and property lists *)
(* ================================================================== *)

Lemma strict_eq_refl (v : value) : strict_eq v v = true.
Proof.
  destruct v; simpl; auto using Bool.eqb_reflx, Z.eqb_refl, String.eqb_refl,
    Nat.eqb_refl.
Qed.

Lemma strict_neq_refl (v : value) : strict_neq v v = false.
Proof. unfold strict_neq. now rewrite strict_eq_refl. Qed.

Lemma lookup_set_prop_same (k : string) (v : value) (ps : props) :
  lookup k (set_prop k v ps) = Some v.
Proof.
  induction ps as [|[k' v'] rest IH]; simpl.
  - now rewrite String.eqb_refl.
  - destruct (String.eqb k k') eqn:E; simpl.
    + now rewrite String.eqb_refl.
    + now rewrite E.
Qed.

Lemma lookup_set_prop_other (k k' : string) (v : value) (ps : props) :
  k <> k' -> lookup k (set_prop k' v ps) = lookup k ps.
Proof.
  intros Hne. induction ps as [|[k0 v0] rest IH]; simpl.
  - destruct (String.eqb_spec k k'); congruence.
  - destruct (String.eqb_spec k' k0) as [->|Hk]; simpl.
    + destruct (String.eqb_spec k k0); congruence.
    + destruct (String.eqb_spec k k0); auto.
Qed.

Lemma lookup_delete_prop_same (k : string) (ps : props) :
  lookup k (delete_prop k ps) = None.
Proof.
  induction ps as [|[k' v'] rest IH]; simpl; auto.
  destruct (String.eqb k k') eqn:E; simpl; auto. now rewrite E.
Qed.

Lemma existsb_keys (k : string) (ps : props) :
  existsb (String.eqb k) (keys ps) = has_key k ps.
Proof.
  unfold has_key. induction ps as [|[k' v'] rest IH]; simpl; auto.
  destruct (String.eqb k k'); simpl; auto.
Qed.

Lemma in_keys_lookup (k : string) (ps : props) :
  In k (keys ps) -> exists v, lookup k ps = Some v.
Proof.
  induction ps as [|[k' v'] rest IH]; simpl; [tauto|].
  intros [->|Hin].
  - rewrite String.eqb_refl. eauto.
  - destruct (String.eqb k k'); eauto.
Qed.

(** Copying the keys [ks] of [source] over [target], key by key. *)
Lemma lookup_copy_keys (source : props) (k : string) :
  forall (ks : list string) (target : props),
    lookup k (fold_left (fun acc k0 =>
                           match lookup k0 source with
                           | Some v => set_prop k0 v acc
                           | None => acc
                           end) ks target)
    = if existsb (String.eqb k) ks
      then match lookup k source with
           | Some v => Some v
           | None => lookup k target
           end
      else lookup k target.
Proof.
  induction ks as [|a ks IH]; intros target; simpl; auto.
  rewrite IH. destruct (String.eqb_spec k a) as [<-|Hne]; simpl.
  - destruct (lookup k source) eqn:E.
    + rewrite lookup_set_prop_same. now destruct (existsb _ ks).
    + now destruct (existsb _ ks).
  - assert (Hsame : lookup k (match lookup a source with
                              | Some v => set_prop a v target
                              | None => target
                              end) = lookup k target).
    { destruct (lookup a source); auto using lookup_set_prop_other. }
    now rewrite Hsame.
Qed.

(** [Object.assign]: the source's value where the source has the key, the
    target's otherwise. *)
Lemma lookup_assign_from (k : string) (target source : props) :
  lookup k (assign_from target source)
  = match lookup k source with
    | Some v => Some v
    | None => lookup k target
    end.
Proof.
  unfold assign_from. rewrite lookup_copy_keys, existsb_keys. unfold has_key.
  now destruct (lookup k source).
Qed.

Lemma lookup_spread (k : string) (x : value) :
  lookup k (spread x) = lookup k (own_props x).
Proof.
  unfold spread. rewrite lookup_assign_from. now destruct (lookup k (own_props x)).
Qed.

(** *** What a notification pass leaves behind *)

Lemma run_listener_frame (l : listener) (st prev : value) (w : world) :
  let w' := run_listener l st prev w in
  next_ref w' = next_ref w /\ state w' = state w /\ listeners w' = listeners w
  /\ trace w' = trace w ++ emitted st prev l.
Proof.
  destruct l as [cb|id key cb|id maxSize on]; simpl.
  - auto.
  - destruct (strict_neq _ _); simpl; rewrite ?app_nil_r; auto.
  - destruct (strict_neq _ _); simpl; auto.
Qed.

Lemma notify_pass_frame (st prev : value) (ls : list listener) :
  forall w : world,
    let w' := fold_left (fun acc l => run_listener l st prev acc) ls w in
    next_ref w' = next_ref w /\ state w' = state w /\ listeners w' = listeners w
    /\ trace w' = trace w ++ flat_map (emitted st prev) ls.
Proof.
  induction ls as [|l ls IH]; intros w; simpl.
  - rewrite app_nil_r. auto.
  - destruct (IH (run_listener l st prev w)) as (Hn & Hs & Hl & Ht).
    destruct (run_listener_frame l st prev w) as (Hn' & Hs' & Hl' & Ht').
    simpl in *. rewrite Hn, Hs, Hl, Ht, Hn', Hs', Hl', Ht', app_assoc. auto.
Qed.

Lemma notify_frame (st prev : value) (w : world) :
  let w' := Zustand.notify st prev w in
  next_ref w' = next_ref w /\ state w' = state w /\ listeners w' = listeners w
  /\ trace w' = trace w ++ flat_map (emitted st prev) (listeners w).
Proof. apply notify_pass_frame. Qed.

Lemma calls_to_app (fn : ref) (t1 t2 : list event) :
  calls_to fn (t1 ++ t2) = calls_to fn t1 ++ calls_to fn t2.
Proof. unfold calls_to. now rewrite flat_map_app. Qed.

Lemma calls_to_emitted_other (fn : ref) (st prev : value) (ls : list listener) :
  Forall (fun l => callee l <> fn) ls ->
  calls_to fn (flat_map (emitted st prev) ls) = [].
Proof.
  induction 1 as [|l ls Hl _ IH]; simpl; auto.
  rewrite calls_to_app, IH, app_nil_r.
  destruct l as [cb|id key cb|id maxSize on]; simpl in *.
  - destruct (Nat.eqb_spec cb fn); simpl; congruence.
  - destruct (strict_neq _ _); simpl; auto.
    destruct (Nat.eqb_spec cb fn); simpl; congruence.
  - destruct (Nat.eqb_spec on fn); simpl; congruence.
Qed.

(** *** What [setState] does to the world *)

Lemma setState_unchanged (partial : PartialState) (replace : option bool) (w : world) :
  Object_is (resolved partial w) (state w) = true ->
  Zustand.setState partial replace w = w.
Proof.
  unfold Zustand.setState, resolved. intros H.
  destruct partial; rewrite H; reflexivity.
Qed.

Lemma setState_listeners (partial : PartialState) (replace : option bool) (w : world) :
  listeners (Zustand.setState partial replace w) = listeners w.
Proof.
  unfold Zustand.setState.
  destruct (Object_is _ (state w)); auto.
  match goal with |- context [if ?c then _ else _] => destruct c end.
  - now destruct (notify_frame
      (match partial with Updater apply _ => apply (state w) | Partial v => v end)
      (state w)
      (with_state
         (match partial with Updater apply _ => apply (state w) | Partial v => v end)
         w)) as (_ & _ & -> & _).
  - simpl. match goal with |- listeners (Zustand.notify ?a ?b ?c) = _ =>
             now destruct (notify_frame a b c) as (_ & _ & -> & _) end.
Qed.

(** One commit is one notification pass, made with the new and the
    previous state; no commit, no call. *)
Lemma setState_trace (partial : PartialState) (replace : option bool) (w : world) :
  trace (Zustand.setState partial replace w)
  = trace w ++
    (if Object_is (resolved partial w) (state w) then []
     else flat_map (emitted (state (Zustand.setState partial replace w)) (state w))
                   (listeners w)).
Proof.
  unfold Zustand.setState, resolved.
  destruct (Object_is _ (state w)); [now rewrite app_nil_r|].
  match goal with |- context [if ?c then _ else _] => destruct c end; simpl;
    match goal with |- context [Zustand.notify ?a ?b ?c] =>
      destruct (notify_frame a b c) as (_ & -> & _ & ->) end; reflexivity.
Qed.

(** A shallow-merging commit of an object: the state is a fresh object
    holding the fields of the previous state overwritten by the partial's. *)
Lemma setState_merges (p : value) (w : world) :
  Object_is p (state w) = false ->
  typeof_object p = true -> p <> VNull ->
  state (Zustand.setState (Partial p) None w)
  = VObj (next_ref w)
         (assign_from (assign_from [] (own_props (state w))) (own_props p)).
Proof.
  intros Hne Hobj Hnull. unfold Zustand.setState. rewrite Hne, Hobj. simpl.
  assert (Hn : strict_eq p VNull = false) by (destruct p; simpl; congruence).
  rewrite Hn. simpl.
  match goal with |- state (Zustand.notify ?a ?b ?c) = _ =>
    now destruct (notify_frame a b c) as (_ & -> & _ & _) end.
Qed.

Lemma get_merged (id : ref) (old new : props) (k : string) :
  get (VObj id (assign_from (assign_from [] old) new)) k
  = match lookup k new with
    | Some v => v
    | None => match lookup k old with Some v => v | None => VUndefined end
    end.
Proof.
  unfold get. simpl. rewrite !lookup_assign_from. simpl.
  destruct (lookup k new); auto. destruct (lookup k old); auto.
Qed.

(* ================================================================== *)
(** ** StoreHelper: setState, subscribe, subscribeTo *)
(* ================================================================== *)

(** C6.  Handing [setState] the very object that is the current state does
    nothing at all: the world after the call is the world before it, so the
    stored state reference is unchanged and no listener has been called
    (the trace of calls is the same, for every subscriber). *)
Theorem setState_same_reference_is_silent (w : world) (s : value) :
  Object_is s (StoreHelper.getState w) = true ->
  StoreHelper.setState (Partial s) w = w
  /\ state (StoreHelper.setState (Partial s) w) = state w
  /\ forall cb, calls_to cb (trace (StoreHelper.setState (Partial s) w))
                = calls_to cb (trace w).
Proof.
  intros H.
  assert (E : StoreHelper.setState (Partial s) w = w)
    by (apply setState_unchanged; exact H).
  rewrite E. auto.
Qed.

Lemma setState_same_reference_is_silent_witness :
  Object_is counter_state (StoreHelper.getState counter_world) = true
  /\ StoreHelper.setState (Partial counter_state) counter_world = counter_world.
Proof.
  split; [reflexivity|].
  exact (proj1 (setState_same_reference_is_silent counter_world counter_state
                  eq_refl)).
Defined.

(** C10.  With [fireImmediately: true], [subscribe] calls the callback once
    while subscribing, with the current state as both arguments, and
    [subscribeTo] calls it once with the current value of the field as both
    arguments; the state is the one before the call (no mutation has
    happened).  With [fireImmediately] absent or false neither makes a
    call. *)
Theorem fireImmediately_calls_once_at_subscription
    (w : world) (key : string) (cb : ref) :
  let yes := mkSubscribeOptions (Some true) in
  let no := mkSubscribeOptions (Some false) in
  (trace (snd (StoreHelper.subscribe cb yes w))
     = trace w ++ [Call cb [state w; state w]]
   /\ state (snd (StoreHelper.subscribe cb yes w)) = state w)
  /\ (trace (snd (StoreHelper.subscribeTo key cb yes w))
        = trace w ++ [Call cb [get (state w) key; get (state w) key]]
      /\ state (snd (StoreHelper.subscribeTo key cb yes w)) = state w)
  /\ trace (snd (StoreHelper.subscribe cb no w)) = trace w
  /\ trace (snd (StoreHelper.subscribe cb no_options w)) = trace w
  /\ trace (snd (StoreHelper.subscribeTo key cb no w)) = trace w
  /\ trace (snd (StoreHelper.subscribeTo key cb no_options w)) = trace w.
Proof.
  unfold StoreHelper.subscribe, StoreHelper.subscribeTo, Zustand.subscribe,
    StoreHelper.getState, Zustand.getState; simpl.
  repeat split;
    match goal with
    | |- context [existsb ?f ?l] => destruct (existsb f l); reflexivity
    end.
Qed.

Lemma mutations_listeners (ms : list (PartialState * option bool)) :
  forall w, listeners (mutations ms w) = listeners w.
Proof.
  induction ms as [|m ms IH]; intros w; simpl; auto.
  unfold mutations in IH. now rewrite IH, setState_listeners.
Qed.

(** C7.  After [subscribeTo(key, cb)], and after any mutations that came in
    between, a call of the store's [setState] calls [cb] exactly when the
    field differs by [!==] between the new and the previous state, and then
    with (new value, previous value); when the field is the same reference
    (for one, when only other fields changed) there is no call.  [cb] is
    called by no other listener, and the identities in use lie below the
    allocation counter. *)
Theorem subscribeTo_fires_iff_field_changed
    (w : world) (key : string) (cb : ref)
    (earlier : list (PartialState * option bool))
    (partial : PartialState) (replace : option bool) :
  Forall (fun l => listener_id l < next_ref w) (listeners w) ->
  Forall (fun l => callee l <> cb) (listeners w) ->
  let w1 := mutations earlier (snd (StoreHelper.subscribeTo key cb no_options w)) in
  let w2 := Zustand.setState partial replace w1 in
  calls_to cb (trace w2)
  = calls_to cb (trace w1)
    ++ (if strict_neq (get (state w2) key) (get (state w1) key)
        then [[get (state w2) key; get (state w1) key]]
        else []).
Proof.
  intros Hfresh Hother w1 w2.
  assert (Hreg : listeners w1 = listeners w ++ [FieldWatcher (next_ref w) key cb]).
  { unfold w1. rewrite mutations_listeners.
    unfold StoreHelper.subscribeTo, Zustand.subscribe. simpl.
    assert (Hno : existsb (Zustand.same_listener (FieldWatcher (next_ref w) key cb))
                          (listeners w) = false).
    { clear - Hfresh. induction Hfresh as [|l ls Hl _ IH]; simpl; auto.
      rewrite IH, orb_false_r. unfold Zustand.same_listener. simpl.
      apply Nat.eqb_neq. lia. }
    now rewrite Hno. }
  unfold w2. rewrite setState_trace.
  destruct (Object_is (resolved partial w1) (state w1)) eqn:Hsame.
  - rewrite (setState_unchanged _ _ _ Hsame), strict_neq_refl, !app_nil_r.
    reflexivity.
  - rewrite calls_to_app. f_equal.
    rewrite Hreg, flat_map_app, calls_to_app, calls_to_emitted_other by exact Hother.
    simpl. destruct (strict_neq _ _); simpl; auto.
    now rewrite Nat.eqb_refl.
Qed.

(** After a change of [count], a change of [step] alone: the watcher of
    [count] is not called for it. *)
Lemma subscribeTo_fires_iff_field_changed_witness :
  Forall (fun l => listener_id l < next_ref counter_world) (listeners counter_world)
  /\ Forall (fun l => callee l <> 7) (listeners counter_world)
  /\ let w1 := mutations [(Partial (VObj 4 [("count", VNum 1)]), None)]
                 (snd (StoreHelper.subscribeTo "count" 7 no_options counter_world)) in
     let w2 := Zustand.setState (Partial (VObj 6 [("step", VNum 2)])) None w1 in
     calls_to 7 (trace w1) = [[VNum 1; VNum 0]]
     /\ calls_to 7 (trace w2) = [[VNum 1; VNum 0]] ++ [].
Proof.
  assert (H1 : Forall (fun l => listener_id l < next_ref counter_world)
                      (listeners counter_world)) by (repeat constructor).
  assert (H2 : Forall (fun l => callee l <> 7) (listeners counter_world))
    by (repeat constructor; simpl; discriminate).
  split; [exact H1|]. split; [exact H2|]. split; [reflexivity|].
  exact (subscribeTo_fires_iff_field_changed counter_world "count" 7
           [(Partial (VObj 4 [("count", VNum 1)]), None)]
           (Partial (VObj 6 [("step", VNum 2)])) None H1 H2).
Defined.

(* ================================================================== *)
(** ** StoreHelper.mergeState *)
(* ================================================================== *)

(** C8.  Given a function, [deepMergeState] does not call it: the result is
    a fresh object with the properties of the state it was given, whatever
    the function and the options.  So [mergeState(f, 'deep')] commits a new
    state reference whose fields are those of the state before, and every
    listener is notified of it (old and new state differ by reference only).
    The state is an object whose identity lies below the allocation
    counter. *)
Theorem deep_merge_ignores_function_updater
    (w : world) (apply : value -> value) (edit : props -> props)
    (s : value) (options : DeepMergeOptions) (n : ref)
    (id : ref) (ps : props) :
  state w = VObj id ps -> id < next_ref w ->
  let f := Updater apply edit in
  let w' := StoreHelper.mergeState f (Some Deep) w in
  (deepMergeState s f options n = (VObj n (spread s), S n)
   /\ forall k, get (VObj n (spread s)) k = get s k)
  /\ strict_eq (state w') (state w) = false
  /\ (forall k, get (state w') k = get (state w) k)
  /\ trace w' = trace w ++ flat_map (emitted (state w') (state w)) (listeners w).
Proof.
  intros Hst Hid f w'.
  split; [split; [reflexivity|]|].
  { intros k. unfold get. simpl. now rewrite lookup_spread. }
  assert (Hne : Object_is (VObj (next_ref w) (spread (state w))) (state w) = false).
  { rewrite Hst. unfold Object_is. cbn [strict_eq]. apply Nat.eqb_neq. lia. }
  set (wa := mkWorld (S (next_ref w)) (state w) (listeners w) (historyRef w) (trace w)).
  assert (Hw' : w' = Zustand.setState (Partial (VObj (next_ref w) (spread (state w))))
                                      None wa) by reflexivity.
  assert (Hstate : state w' = VObj (S (next_ref w))
            (assign_from (assign_from [] (own_props (state w)))
                         (spread (state w)))).
  { rewrite Hw'.
    exact (setState_merges (VObj (next_ref w) (spread (state w))) wa Hne eq_refl
             ltac:(discriminate)). }
  split; [|split].
  - rewrite Hstate, Hst. cbn [strict_eq]. apply Nat.eqb_neq. lia.
  - intros k. rewrite Hstate, get_merged, lookup_spread. unfold get.
    now destruct (lookup k (own_props (state w))).
  - rewrite Hw', setState_trace. unfold resolved. simpl state at 1.
    change (state wa) with (state w). rewrite Hne. reflexivity.
Qed.

Lemma deep_merge_ignores_function_updater_witness :
  let increment := Updater (fun _ => VUndefined)
                           (fun ps => set_prop "count" (VNum 1) ps) in
  let w' := StoreHelper.mergeState increment (Some Deep) counter_world in
  state counter_world = counter_state
  /\ 0 < next_ref counter_world
  /\ get (state w') "count" = VNum 0
  /\ trace w' = [Call 1 [state w'; counter_state]].
Proof.
  split; [reflexivity|]. split; [simpl; lia|].
  pose proof (deep_merge_ignores_function_updater counter_world
                (fun _ => VUndefined) (fun ps => set_prop "count" (VNum 1) ps)
                counter_state no_merge_options 0 0
                [("count", VNum 0); ("step", VNum 1)] eq_refl
                (Nat.lt_0_succ 1)) as H.
  split; [exact (proj1 (proj2 (proj2 H)) "count")|exact (proj2 (proj2 (proj2 H)))].
Defined.

Lemma literal_is_not_the_state (w : world) (id : ref) (ps : props) :
  allocated w -> next_ref w <= id -> Object_is (VObj id ps) (state w) = false.
Proof.
  unfold allocated, Object_is. intros Ha Hle.
  destruct (state w); simpl in *; auto. apply Nat.eqb_neq. lia.
Qed.

(** C9.  Under ['replace'] a function is run on a shallow copy of the state
    and the copy is committed through [setState], which merges: the state
    becomes a new object holding the fields of the edited copy over the
    previous ones, the listeners are called once with it and the previous
    state, and a key the function deleted from the copy is still there, with
    the value it had.  A value under ['replace'] goes through [replaceState]
    and becomes the state as it is, so a key it lacks is gone; the listeners
    are called once with it and the previous state. *)
Theorem replace_strategy_merges_function_result
    (w : world) (apply : value -> value) (edit : props -> props)
    (k : string) (p : value) :
  allocated w ->
  hasOwnProperty (state w) k = true ->
  has_key k (edit (spread (state w))) = false ->
  Object_is p (state w) = false ->
  let wf := StoreHelper.mergeState (Updater apply edit) (Some Replace) w in
  let wv := StoreHelper.mergeState (Partial p) (Some Replace) w in
  let draft := edit (spread (state w)) in
  (wf = StoreHelper.setState (Partial (VObj (next_ref w) draft)) (snd (fresh w))
   /\ state wf = VObj (S (next_ref w))
                   (assign_from (assign_from [] (own_props (state w))) draft)
   /\ (forall k', get (state wf) k'
                  = match lookup k' draft with
                    | Some v => v
                    | None => get (state w) k'
                    end)
   /\ hasOwnProperty (state wf) k = true
   /\ get (state wf) k = get (state w) k
   /\ strict_eq (state wf) (state w) = false
   /\ trace wf = trace w ++ flat_map (emitted (state wf) (state w)) (listeners w))
  /\ (wv = StoreHelper.replaceState p w
      /\ state wv = p
      /\ (forall k', hasOwnProperty p k' = false ->
                     hasOwnProperty (state wv) k' = false)
      /\ trace wv = trace w ++ flat_map (emitted p (state w)) (listeners w)).
Proof.
  intros Ha Hown Hdel Hp wf wv draft.
  assert (Hwv : wv = Zustand.notify p (state w) (with_state p w)).
  { unfold wv, StoreHelper.mergeState, StoreHelper.replaceState, Zustand.setState.
    now rewrite Hp. }
  destruct (notify_frame p (state w) (with_state p w)) as (_ & Hs & _ & Ht).
  rewrite <- Hwv in Hs, Ht. simpl in Hs, Ht.
  assert (Hne : Object_is (VObj (next_ref w) draft) (state (snd (fresh w))) = false).
  { exact (literal_is_not_the_state w (next_ref w) draft Ha (le_n _)). }
  assert (Hwf : wf = Zustand.setState (Partial (VObj (next_ref w) draft)) None
                                      (snd (fresh w))) by reflexivity.
  assert (Hst : state wf = VObj (S (next_ref w))
                  (assign_from (assign_from [] (own_props (state w))) draft)).
  { rewrite Hwf.
    exact (setState_merges _ (snd (fresh w)) Hne eq_refl ltac:(discriminate)). }
  assert (Hget : forall k', get (state wf) k'
                            = match lookup k' draft with
                              | Some v => v
                              | None => get (state w) k'
                              end).
  { intros k'. rewrite Hst, get_merged. unfold get.
    now destruct (lookup k' draft). }
  split.
  - split; [reflexivity|]. split; [exact Hst|]. split; [exact Hget|].
    split; [|split; [|split]].
    + rewrite Hst. unfold hasOwnProperty, has_key. simpl own_props.
      rewrite !lookup_assign_from. simpl lookup at 2.
      unfold has_key in Hdel. unfold hasOwnProperty, has_key in Hown.
      fold draft in Hdel.
      destruct (lookup k draft); [discriminate|].
      destruct (lookup k (own_props (state w))); [auto|discriminate].
    + rewrite Hget. unfold has_key in Hdel. fold draft in Hdel.
      now destruct (lookup k draft).
    + rewrite Hst.
      exact (literal_is_not_the_state w (S (next_ref w)) _ Ha
               (Nat.le_succ_diag_r _)).
    + rewrite Hwf at 1. rewrite setState_trace. unfold resolved.
      rewrite Hne, <- Hwf. reflexivity.
  - split; [reflexivity|]. split; [exact Hs|]. split; [|exact Ht].
    intros k' Hk'. now rewrite Hs.
Qed.

Lemma replace_strategy_merges_function_result_witness :
  let drop_step :=
    Updater (fun _ => VUndefined)
            (fun ps => set_prop "count" (VNum 5) (delete_prop "step" ps)) in
  let only_count := VObj 5 [("count", VNum 9)] in
  let wf := StoreHelper.mergeState drop_step (Some Replace) counter_world in
  let wv := StoreHelper.mergeState (Partial only_count) (Some Replace) counter_world in
  allocated counter_world
  /\ hasOwnProperty (state counter_world) "step" = true
  /\ has_key "step" (set_prop "count" (VNum 5)
                       (delete_prop "step" (spread (state counter_world)))) = false
  /\ Object_is only_count (state counter_world) = false
  /\ get (state wf) "step" = VNum 1
  /\ get (state wf) "count" = VNum 5
  /\ trace wf = [Call 1 [state wf; counter_state]]
  /\ state wv = only_count
  /\ hasOwnProperty (state wv) "step" = false
  /\ trace wv = [Call 1 [only_count; counter_state]].
Proof.
  intros drop_step only_count wf wv.
  assert (Ha : allocated counter_world) by (unfold allocated; simpl; lia).
  split; [exact Ha|].
  split; [reflexivity|]. split; [reflexivity|]. split; [reflexivity|].
  pose proof (replace_strategy_merges_function_result counter_world
                (fun _ => VUndefined)
                (fun ps => set_prop "count" (VNum 5) (delete_prop "step" ps))
                "step" (VObj 5 [("count", VNum 9)])
                Ha eq_refl eq_refl eq_refl) as [Hf Hv].
  destruct Hf as (_ & _ & Hget & _ & Hstep & _ & Htr).
  destruct Hv as (_ & Hst & Hgone & Htr').
  split; [exact Hstep|]. split; [exact (Hget "count")|].
  split; [exact Htr|]. split; [exact Hst|].
  split; [exact (Hgone "step" eq_refl)|exact Htr'].
Defined.

(* ================================================================== *)
(** ** wrapAsyncOperation *)
(* ================================================================== *)

(** The commit of an object literal [{...}] made right after [skipped]
    other allocations: the listeners run once, on a fresh state that holds
    the literal's fields over the previous ones. *)
Lemma literal_commit (w : world) (skipped : nat) (ps : props) :
  allocated w ->
  let w0 := mkWorld (S (skipped + next_ref w)) (state w) (listeners w)
                    (historyRef w) (trace w) in
  let w' := Zustand.setState (Partial (VObj (skipped + next_ref w) ps)) None w0 in
  state w' = VObj (S (skipped + next_ref w))
                  (assign_from (assign_from [] (own_props (state w))) ps)
  /\ strict_eq (state w') (state w) = false
  /\ trace w' = trace w ++ flat_map (emitted (state w') (state w)) (listeners w).
Proof.
  intros Ha w0 w'.
  assert (Hne : Object_is (VObj (skipped + next_ref w) ps) (state w0) = false)
    by (change (state w0) with (state w); apply literal_is_not_the_state;
        [exact Ha|lia]).
  assert (Hst : state w' = VObj (S (skipped + next_ref w))
                  (assign_from (assign_from [] (own_props (state w))) ps))
    by exact (setState_merges _ w0 Hne eq_refl ltac:(discriminate)).
  split; [exact Hst|split].
  - rewrite Hst. unfold allocated in Ha.
    destruct (state w); cbn [strict_eq ref_of] in *; auto. apply Nat.eqb_neq. lia.
  - unfold w'. rewrite setState_trace. unfold resolved. rewrite Hne. reflexivity.
Qed.



(** C3, as the code has it.  When the operation resolves with [r] (whatever
    the options), [r] is returned to the caller and the settling commit sets
    [_isLoading] to false, [_error] to null and [_lastUpdate] to the current
    time; every other field, [data] included, keeps the value it had when the
    operation settled.  The listeners run once for that commit. *)
Theorem resolved_operation_commits_flags_only
    (String_of : value -> string) (operation : world -> settled * world)
    (options : option AsyncOptions) (now : Z) (w : world) (r : value)
    (w2 : world) :
  operation (announce (match options with
                       | Some o => o
                       | None => default_async_options
                       end) w) = (Resolved r, w2) ->
  allocated w2 ->
  let out := wrapAsyncOperation String_of operation options now w in
  fst out = Returned r
  /\ get (state (snd out)) "_isLoading" = VBool false
  /\ get (state (snd out)) "_error" = VNull
  /\ get (state (snd out)) "_lastUpdate" = VNum now
  /\ get (state (snd out)) "data" = get (state w2) "data"
  /\ (forall k, k <> "_isLoading" -> k <> "_error" -> k <> "_lastUpdate" ->
                get (state (snd out)) k = get (state w2) k)
  /\ trace (snd out)
     = trace w2 ++ flat_map (emitted (state (snd out)) (state w2)) (listeners w2).
Proof.
  intros Hop Ha out.
  unfold out, wrapAsyncOperation. rewrite Hop. unfold settle. cbn [fresh fst snd].
  destruct (literal_commit w2 0
              [("_isLoading", VBool false); ("_error", VNull);
               ("_lastUpdate", VNum now)] Ha) as (Hst & _ & Htr).
  cbn [Nat.add] in *.
  assert (Hkeep : forall k, k <> "_isLoading" -> k <> "_error" ->
                            k <> "_lastUpdate" ->
            get (VObj (S (next_ref w2))
                   (assign_from (assign_from [] (own_props (state w2)))
                      [("_isLoading", VBool false); ("_error", VNull);
                       ("_lastUpdate", VNum now)])) k = get (state w2) k).
  { intros k H1 H2 H3. rewrite get_merged. simpl.
    destruct (String.eqb_spec k "_isLoading"); [contradiction|].
    destruct (String.eqb_spec k "_error"); [contradiction|].
    destruct (String.eqb_spec k "_lastUpdate"); [contradiction|].
    reflexivity. }
  repeat split; auto; rewrite Hst;
    try (rewrite get_merged; reflexivity);
    try (apply Hkeep; discriminate); auto.
Qed.

Lemma resolved_operation_commits_flags_only_witness :
  let w2 := announce default_async_options hybrid_world in
  let out := wrapAsyncOperation message_of login None 42 hybrid_world in
  login (announce default_async_options hybrid_world) = (Resolved ann, w2)
  /\ allocated w2
  /\ fst out = Returned ann
  /\ get (state (snd out)) "data" = VObj 1 [("user", VNull)].
Proof.
  intros w2 out.
  assert (Ha : allocated w2) by (unfold allocated; simpl; lia).
  split; [reflexivity|]. split; [exact Ha|].
  pose proof (resolved_operation_commits_flags_only message_of login None 42
                hybrid_world ann w2 eq_refl Ha) as H.
  split; [exact (proj1 H)|exact (proj1 (proj2 (proj2 (proj2 (proj2 H)))))].
Defined.

(** C3, as stated, fails: the operation resolves with [{user: "ann"}], and
    after the settling commit [data] is still the object it was, whose
    [user] is null; the result was returned, not merged. *)
Lemma resolved_result_is_not_written_to_data :
  let out := wrapAsyncOperation message_of login None 42 hybrid_world in
  fst out = Returned ann
  /\ get (state (snd out)) "_isLoading" = VBool false
  /\ get (state (snd out)) "data" = get hybrid_state "data"
  /\ get (get (state (snd out)) "data") "user" = VNull
  /\ get ann "user" = VStr "ann"
  /\ get (state (snd out)) "data" <> ann.
Proof.
  cbv zeta. repeat split; try reflexivity. vm_compute. discriminate.
Qed.

(* ================================================================== *)
(** ** useHistoryState *)
(* ================================================================== *)

(** C1.  The round trip, run on the code: A is [{count: 0}], B and C set
    [count] to 1 and 2.  The first [undo()] returns true and the state shows
    B again, but the commit [undo] makes is reported to the tracker's own
    listener as one more forward mutation: [future] is emptied and C is put
    on [past].  So [redo()] right after it returns false, and a second
    [undo()] brings C back, never A. *)
Theorem undo_is_recorded_as_a_forward_mutation :
  let tracked := snd (useHistoryState None 9 store_A) in
  let at_C := set_count 2 (set_count 1 tracked) in
  let first := undo at_C in
  let second := undo (snd first) in
  (counts (past (historyRef at_C)) = [VNum 0; VNum 1]
   /\ get (state at_C) "count" = VNum 2)
  /\ (fst first = true /\ get (state (snd first)) "count" = VNum 1)
  /\ future (historyRef (snd first)) = []
  /\ counts (past (historyRef (snd first))) = [VNum 0; VNum 2]
  /\ fst (redo (snd first)) = false
  /\ (fst second = true /\ get (state (snd second)) "count" = VNum 2)
  /\ fst (redo (snd second)) = false.
Proof. cbv zeta. repeat split; vm_compute; reflexivity. Qed.

(** C4.  With [maxSize = 3], five forward mutations leave the three most
    recent predecessors on [past], oldest first.  With [maxSize = 0] the
    bound fails: [slice(-0)] keeps the whole array, and [past] grows with
    every mutation. *)
Theorem history_bound_holds_for_3_and_fails_for_0 :
  let five := fun w => set_count 5 (set_count 4 (set_count 3
                         (set_count 2 (set_count 1 w)))) in
  let tracked3 := snd (useHistoryState (Some 3%Z) 9 store_A) in
  let tracked0 := snd (useHistoryState (Some 0%Z) 9 store_A) in
  (List.length (past (historyRef (five tracked3))) = 3
   /\ counts (past (historyRef (five tracked3))) = [VNum 2; VNum 3; VNum 4]
   /\ get (state (five tracked3)) "count" = VNum 5)
  /\ List.length (past (historyRef (set_count 1 tracked0))) = 1
  /\ List.length (past (historyRef (five tracked0))) = 5.
Proof. cbv zeta. repeat split; vm_compute; reflexivity. Qed.

(* ================================================================== *)
(** ** deepMergeState *)
(* ================================================================== *)

Lemma lookup_depth (k : string) (ps : props) (x : value) :
  lookup k ps = Some x ->
  depth x <= list_max (map (fun p => depth (snd p)) ps).
Proof.
  induction ps as [|[k' v'] rest IH]; simpl; [discriminate|].
  destruct (String.eqb k k').
  - intros [= ->]. lia.
  - intros H. specialize (IH H). lia.
Qed.

Lemma depth_get (v : value) (k : string) : depth (get v k) <= pred (depth v).
Proof.
  unfold get. destruct (lookup k (own_props v)) eqn:E; simpl; [|lia].
  destruct v; simpl in E; try discriminate.
  simpl. now apply lookup_depth with (k := k).
Qed.

Lemma mergeable_depth (v : value) : isMergeableObject v = true -> 1 <= depth v.
Proof. destruct v; simpl; intros; try discriminate; lia. Qed.

Lemma lookup_in_keys (k : string) (ps : props) (v : value) :
  lookup k ps = Some v -> In k (keys ps).
Proof.
  induction ps as [|[k' v'] rest IH]; simpl; [discriminate|].
  destruct (String.eqb_spec k k'); auto.
Qed.

(** *** Loops in the allocation monad *)

Lemma foldM_total {A B : Type} (f : A -> B -> M A) (l : list B) :
  (forall b, In b l -> forall a n, exists a' n', f a b n = Some (a', n')) ->
  forall a n, exists a' n', foldM f l a n = Some (a', n').
Proof.
  induction l as [|b l IH]; intros Hf a n; simpl.
  - unfold ret. eauto.
  - unfold bind. destruct (Hf b (or_introl eq_refl) a n) as (a1 & n1 & ->).
    apply IH. intros b' Hb'. apply Hf. now right.
Qed.

(** A property of the accumulator that the step for [b0] establishes and
    every step keeps holds at the end of a loop that meets [b0]. *)
Lemma foldM_establishes {A B : Type} (f : A -> B -> M A) (Q : A -> Prop)
    (b0 : B) (l : list B) :
  (forall b, In b l -> forall a n,
      exists a' n', f a b n = Some (a', n') /\ (Q a -> Q a') /\ (b = b0 -> Q a')) ->
  forall a n, Q a \/ In b0 l ->
    exists a' n', foldM f l a n = Some (a', n') /\ Q a'.
Proof.
  induction l as [|b l IH]; intros Hf a n Hq; simpl.
  - unfold ret. destruct Hq as [Hq|[]]. eauto.
  - unfold bind.
    destruct (Hf b (or_introl eq_refl) a n) as (a1 & n1 & -> & Hkeep & Hset).
    apply IH.
    + intros b' Hb'. apply Hf. now right.
    + destruct Hq as [Hq|[->|Hin]]; auto.
Qed.

(** *** [deepmerge] never runs out of its budget *)

Lemma clone_total (fuel : nat) (options : Options) (v : value) (n : ref) :
  total_at fuel options ->
  (isMergeableObject v = true -> 2 * depth v < fuel) ->
  exists r n',
    cloneUnlessOtherwiseSpecified options (deepmerge fuel options) v n
    = Some (r, n').
Proof.
  intros IH Hv. unfold cloneUnlessOtherwiseSpecified.
  destruct (clone options && isMergeableObject v) eqn:E.
  - apply andb_prop in E. destruct E as [_ Hm].
    unfold bind, emptyTarget, new_id, ret. apply IH.
    pose proof (mergeable_depth v Hm). specialize (Hv Hm). unfold need.
    destruct v; simpl in *; try discriminate; lia.
  - unfold ret. eauto.
Qed.

Lemma mergeObject_loops (options : Options) (rec : value -> value -> M value)
    (target source : value) :
  mergeObject options rec target source
  = (id <- new_id ;;
     d1 <- (if isMergeableObject target
            then foldM (target_step options rec target) (keys (own_props target)) []
            else ret []) ;;
     d2 <- foldM (source_step options rec target source)
                 (keys (own_props source)) d1 ;;
     ret (VObj id d2)).
Proof. reflexivity. Qed.

Lemma target_step_total (fuel : nat) (options : Options) (t : value)
    (d : props) (key : string) (n : ref) :
  total_at fuel options -> 2 * depth t <= fuel ->
  exists d' n', target_step options (deepmerge fuel options) t d key n
                = Some (d', n').
Proof.
  intros IH Hd. unfold target_step, bind.
  destruct (clone_total fuel options (get t key) n IH) as (v & n1 & ->).
  - intros Hm. pose proof (mergeable_depth _ Hm). pose proof (depth_get t key). lia.
  - unfold ret. eauto.
Qed.

(** A step of the second loop writes the key it is at, or nothing. *)
Lemma source_step_total (fuel : nat) (options : Options) (t s : value)
    (d : props) (key : string) (n : ref) :
  total_at fuel options ->
  2 * Nat.max (depth t) (depth s) <= fuel ->
  exists d' n', source_step options (deepmerge fuel options) t s d key n
                = Some (d', n')
                /\ (d' = d \/ exists v, d' = set_prop key v d).
Proof.
  intros IH Hd. unfold source_step.
  destruct (propertyIsUnsafe t key); [unfold ret; eauto|].
  destruct (propertyIsOnObject t key && isMergeableObject (get s key)) eqn:E.
  - apply andb_prop in E. destruct E as [_ Hm]. unfold bind.
    destruct (IH (get t key) (get s key) n) as (v & n1 & ->).
    + pose proof (mergeable_depth _ Hm). pose proof (depth_get t key).
      pose proof (depth_get s key). unfold need.
      destruct (Bool.eqb _ _); lia.
    + unfold ret. eexists _, _. split; [reflexivity|right; eauto].
  - unfold bind.
    destruct (clone_total fuel options (get s key) n IH) as (v & n1 & ->).
    + intros Hm. pose proof (mergeable_depth _ Hm). pose proof (depth_get s key). lia.
    + unfold ret. eexists _, _. split; [reflexivity|right; eauto].
Qed.

Lemma deepmerge_step (fuel : nat) (options : Options) (target source : value) :
  deepmerge (S fuel) options target source
  = if negb (Bool.eqb (isArray source) (isArray target))
    then cloneUnlessOtherwiseSpecified options (deepmerge fuel options) source
    else if isArray source
    then fun n => Some (arrayMerge options target source n)
    else mergeObject options (deepmerge fuel options) target source.
Proof. reflexivity. Qed.

Lemma deepmerge_total (fuel : nat) (options : Options) : total_at fuel options.
Proof.
  induction fuel as [|fuel IH]; intros t s n Hneed; [lia|].
  unfold need in Hneed. rewrite deepmerge_step.
  destruct (Bool.eqb (isArray s) (isArray t)) eqn:Hmatch; cbn [negb].
  - destruct (isArray s).
    { destruct (arrayMerge options t s n) as [r n']. eauto. }
    rewrite mergeObject_loops. unfold bind at 1. unfold new_id.
    assert (Hd : 2 * Nat.max (depth t) (depth s) <= fuel) by lia.
    assert (H1 : exists d1 n1,
               (if isMergeableObject t
                then foldM (target_step options (deepmerge fuel options) t)
                           (keys (own_props t)) []
                else ret []) (S n) = Some (d1, n1)).
    { destruct (isMergeableObject t); [|unfold ret; eauto].
      apply foldM_total. intros key _ d m.
      apply target_step_total; [exact IH|lia]. }
    destruct H1 as (d1 & n1 & H1). unfold bind at 1. rewrite H1.
    destruct (foldM_total (source_step options (deepmerge fuel options) t s)
                (keys (own_props s))
                (fun key _ d m =>
                   let '(ex_intro _ d' (ex_intro _ n' (conj E _))) :=
                     source_step_total fuel options t s d key m IH Hd in
                   ex_intro _ d' (ex_intro _ n' E))
                d1 n1) as (d2 & n2 & H2).
    unfold bind. rewrite H2. unfold ret. eauto.
  - apply clone_total; [exact IH|]. intros _. lia.
Qed.

Lemma budget_suffices (t s : value) : need t s < budget t s.
Proof. unfold need, budget. destruct (Bool.eqb _ _); lia. Qed.

(** [deepMergeState] on a value is the merge deepmerge returns. *)
Lemma deepMergeState_runs_deepmerge
    (current partial : value) (options : DeepMergeOptions) (n : ref) :
  deepmerge (budget current partial)
    (mkOptions (match opt_clone options with Some c => c | None => true end)
       (arrayMerge_callback
          (match opt_arrayMerge options with
           | Some a => a
           | None => AMmerge_by_index
           end)))
    current partial n
  = Some (deepMergeState current (Partial partial) options n).
Proof.
  unfold deepMergeState.
  destruct (deepmerge_total (budget current partial)
              (mkOptions (match opt_clone options with Some c => c | None => true end)
                 (arrayMerge_callback
                    (match opt_arrayMerge options with
                     | Some a => a
                     | None => AMmerge_by_index
                     end)))
              current partial n (budget_suffices current partial))
    as (r & n' & E).
  now rewrite E.
Qed.

(** *** The array policy *)

Lemma get_array_own (v : value) (k : string) (i : ref) (xs : list value) :
  get v k = VArr i xs ->
  lookup k (own_props v) = Some (VArr i xs) /\ isArray v = false.
Proof.
  unfold get. destruct (lookup k (own_props v)) eqn:E; [|discriminate].
  intros ->. split; auto. destruct v; simpl in E; try discriminate; reflexivity.
Qed.

(** Where both states hold an array under [k], the merged state holds under
    [k] what the [arrayMerge] callback makes of the two arrays. *)
Lemma deepMergeState_array_key
    (current partial : value) (k : string) (i j : ref) (xs ys : list value)
    (policy : option ArrayMerge) (clone : option bool) (n : ref) :
  get current k = VArr i xs ->
  get partial k = VArr j ys ->
  exists m,
    get (fst (deepMergeState current (Partial partial)
                (mkDeepMergeOptions policy clone) n)) k
    = fst (arrayMerge_callback
             (match policy with Some a => a | None => AMmerge_by_index end)
             (VArr i xs) (VArr j ys) m).
Proof.
  intros Hc Hp.
  destruct (get_array_own _ _ _ _ Hc) as [Hlc Hac].
  destruct (get_array_own _ _ _ _ Hp) as [Hlp Hap].
  unfold deepMergeState. cbn [opt_arrayMerge opt_clone].
  set (pol := match policy with Some a => a | None => AMmerge_by_index end).
  set (options := mkOptions (match clone with Some c => c | None => true end)
                            (arrayMerge_callback pol)).
  set (fuel := 2 * Nat.max (depth current) (depth partial)).
  replace (budget current partial) with (S (S fuel)) by (unfold budget, fuel; lia).
  rewrite deepmerge_step, Hac, Hap. cbn [Bool.eqb negb].
  rewrite mergeObject_loops. unfold bind at 1. unfold new_id.
  pose proof (deepmerge_total (S fuel) options) as IH.
  assert (Hd : 2 * Nat.max (depth current) (depth partial) <= S fuel)
    by (unfold fuel; lia).
  assert (H1 : exists d1 n1,
             (if isMergeableObject current
              then foldM (target_step options (deepmerge (S fuel) options) current)
                         (keys (own_props current)) []
              else ret []) (S n) = Some (d1, n1)).
  { destruct (isMergeableObject current); [|unfold ret; eauto].
    apply foldM_total. intros key _ d m.
    apply target_step_total; [exact IH|lia]. }
  destruct H1 as (d1 & n1 & H1). unfold bind at 1. rewrite H1.
  set (Q := fun d : props =>
              exists m, lookup k d
                        = Some (fst (arrayMerge_callback pol (VArr i xs)
                                                         (VArr j ys) m))).
  destruct (foldM_establishes
              (source_step options (deepmerge (S fuel) options) current partial)
              Q k (keys (own_props partial))) with (a := d1) (n := n1)
    as (d2 & n2 & H2 & m & Hq).
  - intros key _ d m.
    destruct (String.eqb_spec key k) as [->|Hne].
    + (* the step at [k]: both sides are arrays *)
      unfold source_step, propertyIsUnsafe, hasOwnProperty, has_key.
      rewrite Hlc, andb_false_r.
      assert (Hon : propertyIsOnObject current k = true).
      { destruct current; simpl in Hlc; try discriminate.
        simpl. unfold has_key. now rewrite Hlc. }
      rewrite Hon, Hp, Hc. cbn [isMergeableObject andb].
      unfold bind. rewrite deepmerge_step. cbn [isArray Bool.eqb negb].
      cbn [arrayMerge options].
      destruct (arrayMerge_callback pol (VArr i xs) (VArr j ys) m)
        as [v m'] eqn:Ecb.
      unfold ret. eexists _, _. split; [reflexivity|].
      assert (Hq : Q (set_prop k v d)).
      { exists m. now rewrite lookup_set_prop_same, Ecb. }
      auto.
    + destruct (source_step_total (S fuel) options current partial d key m IH Hd)
        as (d' & m' & E & Hshape).
      exists d', m'. split; [exact E|]. split; [|congruence].
      intros (m0 & Hm0). exists m0.
      destruct Hshape as [->|(v & ->)]; auto.
      rewrite lookup_set_prop_other by congruence. exact Hm0.
  - right. now apply lookup_in_keys with (v := VArr j ys).
  - unfold bind. rewrite H2. unfold ret. cbn [fst]. exists m.
    unfold get. cbn [own_props]. now rewrite Hq.
Qed.

(** C5.  Where both states hold an array under a key, the merged state
    holds under that key: with [concat], a new array of the destination's
    elements followed by the source's; with [replace], the source array
    itself; with [merge-by-index], and with no policy given (the default),
    the source array itself as with [replace]. *)
Theorem deepMergeState_array_policy
    (current partial : value) (k : string) (i j : ref) (xs ys : list value)
    (clone : option bool) (n : ref) :
  get current k = VArr i xs ->
  get partial k = VArr j ys ->
  let merged := fun policy =>
    fst (deepMergeState current (Partial partial)
           (mkDeepMergeOptions policy clone) n) in
  (exists id, get (merged (Some AMconcat)) k = VArr id (xs ++ ys))
  /\ get (merged (Some AMreplace)) k = VArr j ys
  /\ get (merged (Some AMmerge_by_index)) k = VArr j ys
  /\ get (merged None) k = VArr j ys
  /\ get (merged None) k = get (merged (Some AMreplace)) k.
Proof.
  intros Hc Hp merged.
  destruct (deepMergeState_array_key current partial k i j xs ys
              (Some AMconcat) clone n Hc Hp) as (m1 & H1).
  destruct (deepMergeState_array_key current partial k i j xs ys
              (Some AMreplace) clone n Hc Hp) as (m2 & H2).
  destruct (deepMergeState_array_key current partial k i j xs ys
              (Some AMmerge_by_index) clone n Hc Hp) as (m3 & H3).
  destruct (deepMergeState_array_key current partial k i j xs ys
              None clone n Hc Hp) as (m4 & H4).
  unfold merged. rewrite H2, H3, H4. simpl in *. eauto 6.
Qed.

Lemma deepMergeState_array_policy_witness :
  let merged := fun policy =>
    fst (deepMergeState items_12 (Partial items_3)
           (mkDeepMergeOptions policy None) 4) in
  get items_12 "items" = VArr 1 [VNum 1; VNum 2]
  /\ get items_3 "items" = VArr 3 [VNum 3]
  /\ (exists id, get (merged (Some AMconcat)) "items"
                 = VArr id [VNum 1; VNum 2; VNum 3])
  /\ get (merged (Some AMreplace)) "items" = VArr 3 [VNum 3]
  /\ get (merged None) "items" = VArr 3 [VNum 3].
Proof.
  intros merged.
  split; [reflexivity|]. split; [reflexivity|].
  pose proof (deepMergeState_array_policy items_12 items_3 "items" 1 3
                [VNum 1; VNum 2] [VNum 3] None 4 eq_refl eq_refl) as H.
  split; [exact (proj1 H)|].
  split; [exact (proj1 (proj2 H))|exact (proj1 (proj2 (proj2 (proj2 H))))].
Defined.

(* ================================================================== *)
(** ** The tracker over any run *)
(* ================================================================== *)

Lemma strict_eq_sym (a b : value) : strict_eq a b = strict_eq b a.
Proof.
  destruct a, b; simpl; auto using Z.eqb_sym, String.eqb_sym, Nat.eqb_sym.
  destruct b0, b; reflexivity.
Qed.

Lemma pass_without_tracker (st prev : value) (ls : list listener) :
  no_tracker ls ->
  forall w, historyRef (fold_left (fun acc l => run_listener l st prev acc) ls w)
            = historyRef w.
Proof.
  induction 1 as [|l ls Hl _ IH]; intros w; simpl; auto.
  rewrite IH. destruct l; simpl in *; try discriminate; auto.
  destruct (strict_neq _ _); reflexivity.
Qed.

(** A notification of a changed state leaves the record the tracker's
    listener wrote. *)
Lemma notify_tracker (N : Z) (st prev : value) (w : world) :
  one_tracker N (listeners w) ->
  strict_neq st prev = true ->
  historyRef (Zustand.notify st prev w)
  = {| past := slice_from (- N) (past (historyRef w) ++ [prev]);
       present := st; future := [] |}.
Proof.
  intros (ls1 & id & on & ls2 & Hls & H1 & H2) Hneq.
  unfold Zustand.notify. rewrite Hls, fold_left_app. simpl fold_left.
  rewrite pass_without_tracker by exact H2.
  rewrite Hneq. simpl. now rewrite pass_without_tracker by exact H1.
Qed.

Lemma In_skipn {A : Type} (x : A) (n : nat) (l : list A) :
  In x (skipn n l) -> In x l.
Proof.
  intros H. rewrite <- (firstn_skipn n l). apply in_or_app. now right.
Qed.

Section Bounded.
Variable N : Z.
Hypothesis N_positive : (1 <= N)%Z.

Lemma slice_keeps_last (l : list value) (x : value) :
  exists l', slice_from (- N) (l ++ [x]) = l' ++ [x]
             /\ (forall y, In y l' -> In y l)
             /\ (Z.of_nat (List.length (l' ++ [x])) <= N)%Z.
Proof.
  unfold slice_from. rewrite length_app. simpl List.length.
  destruct (Z.ltb_spec (- N) 0); [|lia].
  set (k := Z.to_nat (Z.max (Z.of_nat (List.length l + 1) + - N) 0)).
  assert (Hk : k <= List.length l) by (unfold k; lia).
  exists (skipn k l). rewrite skipn_app.
  replace (k - List.length l) with 0 by lia. simpl skipn.
  split; [reflexivity|]. split; [intros y; apply In_skipn|].
  rewrite length_app, length_skipn. simpl. unfold k. lia.
Qed.

(** A commit of an allocated object, whatever the record held before,
    leaves the tracker in order. *)
Lemma commit_restores_tracking (w : world) (partial : PartialState)
    (replace : option bool) :
  one_tracker N (listeners w) ->
  object_below (next_ref w) (state w) ->
  Forall (object_below (next_ref w)) (past (historyRef w)) ->
  object_below (next_ref w) (resolved partial w) ->
  Object_is (resolved partial w) (state w) = false ->
  tracking N (Zustand.setState partial replace w).
Proof.
  intros Hls Hst Hpast Hv Hne.
  destruct (slice_keeps_last (past (historyRef w)) (state w))
    as (l' & Hslice & Hin & Hlen).
  assert (Hbelow : forall n, next_ref w <= n ->
            Forall (object_below n) (l' ++ [state w])).
  { intros n Hn. apply Forall_app. split.
    - apply Forall_forall. intros y Hy. apply Hin in Hy.
      rewrite Forall_forall in Hpast. specialize (Hpast y Hy).
      destruct y; simpl in *; try contradiction; lia.
    - constructor; [|constructor].
      destruct (state w); simpl in *; try contradiction; lia. }
  unfold Zustand.setState. fold (resolved partial w). rewrite Hne.
  match goal with |- context [if ?c then _ else _] => destruct c end.
  - (* the value becomes the state as it is *)
    set (w1 := with_state (resolved partial w) w).
    destruct (notify_frame (resolved partial w) (state w) w1)
      as (En & Es & El & _).
    assert (Eh := notify_tracker N (resolved partial w) (state w) w1 Hls
                    ltac:(unfold strict_neq; unfold Object_is in Hne;
                          now rewrite Hne)).
    simpl in Eh, En, Es, El. rewrite Hslice in Eh.
    constructor; rewrite ?En, ?Es, ?El, ?Eh; simpl; auto.
    right. rewrite last_last. unfold Object_is in *. now rewrite strict_eq_sym.
  - (* the shallow merge into a fresh object *)
    cbn [fresh].
    set (merged := VObj (next_ref w) _).
    set (w1 := with_state merged _).
    assert (Hnew : strict_eq merged (state w) = false).
    { unfold merged. destruct (state w); simpl in *; try contradiction.
      apply Nat.eqb_neq. lia. }
    destruct (notify_frame merged (state w) w1) as (En & Es & El & _).
    assert (Eh := notify_tracker N merged (state w) w1 Hls
                    ltac:(unfold strict_neq; now rewrite Hnew)).
    simpl in Eh, En, Es, El. rewrite Hslice in Eh.
    constructor; rewrite ?En, ?Es, ?El, ?Eh; simpl; auto.
    right. rewrite last_last. unfold Object_is. now rewrite strict_eq_sym.
Qed.

Lemma object_truthy (n : ref) (v : value) : object_below n v -> truthy v = true.
Proof. destruct v; simpl; tauto. Qed.

Lemma step_keeps_tracking (w w' : world) :
  tracking N w -> operation_step w w' -> tracking N w'.
Proof.
  intros [Hls Hst Hpast Hlast Hfut Hbound] Hstep.
  destruct Hstep as [w|w partial replace Hv|w|w].
  - constructor; simpl; auto.
    + destruct (state w); simpl in *; try contradiction; lia.
    + eapply Forall_impl; [|exact Hpast].
      intros v Hv. destruct v; simpl in *; try contradiction; lia.
  - destruct (Object_is (resolved partial w) (state w)) eqn:Hsame.
    + rewrite setState_unchanged by exact Hsame. now constructor.
    + now apply commit_restores_tracking.
  - (* undo *)
    unfold undo, pop.
    destruct (past (historyRef w)) as [|p ps] eqn:Hp.
    + simpl. constructor; simpl; auto; rewrite ?Hp; auto.
    + destruct (exists_last (l := p :: ps) ltac:(discriminate)) as (l0 & x & E).
      rewrite E in *. rewrite last_last, removelast_last in *.
      assert (Hobj : object_below (next_ref w) x).
      { rewrite Forall_forall in Hpast. apply Hpast, in_or_app. right. now left. }
      rewrite (object_truthy _ _ Hobj). cbn [snd].
      destruct Hlast as [Hnil|Hne]; [now destruct l0|].
      apply commit_restores_tracking; simpl; auto.
      now apply Forall_app in Hpast.
  - (* redo *)
    unfold redo, pop. rewrite Hfut. simpl.
    constructor; simpl; auto.
Qed.

Lemma steps_keep_tracking (w w' : world) :
  tracking N w -> operation_steps w w' -> tracking N w'.
Proof.
  intros Hw Hsteps. induction Hsteps; eauto using step_keeps_tracking.
Qed.

(** The world [useHistoryState] leaves is tracked. *)
Lemma useHistoryState_starts_tracking (w : world) (onStoreChange : ref) :
  no_tracker (listeners w) ->
  Forall (fun l => listener_id l < next_ref w) (listeners w) ->
  object_below (next_ref w) (state w) ->
  tracking N (snd (useHistoryState (Some N) onStoreChange w)).
Proof.
  intros Hno Hids Hst. unfold useHistoryState, Zustand.subscribe. simpl.
  assert (Hnew : existsb (Zustand.same_listener
                            (HistoryListener (next_ref w) N onStoreChange))
                         (listeners w) = false).
  { clear - Hids. induction Hids as [|l ls Hl _ IH]; simpl; auto.
    rewrite IH, orb_false_r. unfold Zustand.same_listener. simpl.
    apply Nat.eqb_neq. lia. }
  rewrite Hnew. constructor; simpl; auto; try lia.
  - exists (listeners w), (next_ref w), onStoreChange, [].
    repeat split; auto. constructor.
  - destruct (state w); simpl in *; try contradiction; lia.
Qed.

End Bounded.

(** X1.  A tracker created with [maxSize = N], N at least 1, over a store
    whose state is an object: after any run of allocations, [setState]
    calls handing over allocated objects, [undo()] and [redo()] calls,
    [past] holds at most N states. *)
Theorem history_bounded_for_positive_maxSize
    (N : Z) (w0 : world) (onStoreChange : ref) (w : world) :
  (1 <= N)%Z ->
  no_tracker (listeners w0) ->
  Forall (fun l => listener_id l < next_ref w0) (listeners w0) ->
  object_below (next_ref w0) (state w0) ->
  operation_steps (snd (useHistoryState (Some N) onStoreChange w0)) w ->
  (Z.of_nat (List.length (past (historyRef w))) <= N)%Z.
Proof.
  intros HN Hno Hids Hst Hsteps.
  apply trk_bound.
  eapply steps_keep_tracking; [exact HN| |exact Hsteps].
  now apply useHistoryState_starts_tracking.
Qed.

(** X2.  In every such run [future] is empty between operations: the
    commit [undo()] makes is recorded by the tracker's own listener, which
    empties [future].  So [redo()] returns false wherever it is called, and
    after an [undo()] in particular. *)
Theorem redo_never_succeeds
    (N : Z) (w0 : world) (onStoreChange : ref) (w : world) :
  (1 <= N)%Z ->
  no_tracker (listeners w0) ->
  Forall (fun l => listener_id l < next_ref w0) (listeners w0) ->
  object_below (next_ref w0) (state w0) ->
  operation_steps (snd (useHistoryState (Some N) onStoreChange w0)) w ->
  future (historyRef w) = []
  /\ canRedo w = false
  /\ fst (redo w) = false
  /\ future (historyRef (snd (undo w))) = []
  /\ fst (redo (snd (undo w))) = false.
Proof.
  intros HN Hno Hids Hst Hsteps.
  assert (Hw : tracking N w).
  { eapply steps_keep_tracking; [exact HN| |exact Hsteps].
    now apply useHistoryState_starts_tracking. }
  assert (Hu : tracking N (snd (undo w)))
    by (eapply step_keeps_tracking; [exact HN|exact Hw|constructor]).
  assert (Hredo : forall w1, future (historyRef w1) = [] ->
            canRedo w1 = false /\ fst (redo w1) = false).
  { intros w1 H1. unfold canRedo, redo, pop. now rewrite H1. }
  destruct (Hredo _ (trk_future _ _ Hw)) as [H1 H2].
  destruct (Hredo _ (trk_future _ _ Hu)) as [_ H3].
  pose proof (trk_future _ _ Hw). pose proof (trk_future _ _ Hu).
  repeat split; assumption.
Qed.

(** The run A, B, C, [undo()] of the counter store, as steps. *)
Lemma counter_run_steps (N : Z) :
  let tracked := snd (useHistoryState (Some N) 9 store_A) in
  operation_steps tracked (snd (undo (set_count 2 (set_count 1 tracked)))).
Proof.
  intros tracked.
  assert (Hset : forall n w, operation_steps tracked w ->
                             operation_steps tracked (set_count n w)).
  { intros n w Hw. unfold set_count. cbn [fresh].
    eapply steps_more; [eapply steps_more; [exact Hw|apply step_allocate]|].
    apply (step_setState (snd (fresh w))
             (Partial (VObj (next_ref w) [("count", VNum n)])) None).
    simpl. lia. }
  eapply steps_more; [|apply step_undo].
  apply Hset, Hset. constructor.
Defined.

Lemma history_bounded_for_positive_maxSize_witness :
  let w := snd (undo (set_count 2 (set_count 1
                  (snd (useHistoryState (Some 1%Z) 9 store_A))))) in
  (1 <= 1)%Z
  /\ object_below (next_ref store_A) (state store_A)
  /\ (Z.of_nat (List.length (past (historyRef w))) <= 1)%Z.
Proof.
  intros w. split; [lia|]. split; [simpl; lia|].
  apply (history_bounded_for_positive_maxSize 1 store_A 9 w).
  - lia.
  - constructor.
  - constructor.
  - simpl. lia.
  - exact (counter_run_steps 1).
Defined.

Lemma redo_never_succeeds_witness :
  let w := snd (undo (set_count 2 (set_count 1
                  (snd (useHistoryState (Some 10%Z) 9 store_A))))) in
  (1 <= 10)%Z
  /\ object_below (next_ref store_A) (state store_A)
  /\ future (historyRef w) = []
  /\ fst (redo w) = false.
Proof.
  intros w. split; [lia|]. split; [simpl; lia|].
  pose proof (redo_never_succeeds 10 store_A 9 w ltac:(lia)
                (Forall_nil _) (Forall_nil _) ltac:(simpl; lia)
                (counter_run_steps 10)) as H.
  split; [exact (proj1 H)|exact (proj1 (proj2 (proj2 H)))].
Defined.

(* ================================================================== *)
(** ** StoreHelper.batchUpdate *)
(* ================================================================== *)

(** X3.  [batchUpdate(updater)] runs the updater on a shallow copy of the
    state and commits the copy once: the listeners run a single time,
    whatever number of fields the updater wrote, and the new state holds the
    copy's fields over the previous ones (a field the updater deleted keeps
    its previous value). *)
Theorem batchUpdate_commits_once (w : world) (updater : props -> props) :
  allocated w ->
  let w' := StoreHelper.batchUpdate updater w in
  state w' = VObj (S (next_ref w))
               (assign_from (assign_from [] (own_props (state w)))
                            (updater (spread (state w))))
  /\ (forall k, get (state w') k
                = match lookup k (updater (spread (state w))) with
                  | Some v => v
                  | None => get (state w) k
                  end)
  /\ trace w' = trace w ++ flat_map (emitted (state w') (state w)) (listeners w).
Proof.
  intros Ha w'.
  destruct (literal_commit w 0 (updater (spread (state w))) Ha)
    as (Hst & _ & Htr).
  cbn [Nat.add] in *.
  split; [exact Hst|split; [|exact Htr]].
  intros k. unfold w'. unfold StoreHelper.batchUpdate, StoreHelper.setState,
    StoreHelper.getState, Zustand.getState. cbn [fresh].
  rewrite Hst, get_merged. reflexivity.
Qed.

Lemma batchUpdate_commits_once_witness :
  let both := fun ps => set_prop "step" (VNum 5) (set_prop "count" (VNum 1) ps) in
  let w' := StoreHelper.batchUpdate both counter_world in
  allocated counter_world
  /\ get (state w') "count" = VNum 1
  /\ get (state w') "step" = VNum 5
  /\ trace w' = [Call 1 [state w'; counter_state]].
Proof.
  intros both w'.
  assert (Ha : allocated counter_world) by (unfold allocated; simpl; lia).
  split; [exact Ha|].
  pose proof (batchUpdate_commits_once counter_world both Ha) as H.
  split; [exact (proj1 (proj2 H) "count")|].
  split; [exact (proj1 (proj2 H) "step")|exact (proj2 (proj2 H))].
Defined.

(* ================================================================== *)
(** ** deepEquals *)
(* ================================================================== *)

Lemma lookup_height (k : string) (ps : props) (x : value) :
  lookup k ps = Some x ->
  height x <= list_max (map (fun p => height (snd p)) ps).
Proof.
  induction ps as [|[k' v'] rest IH]; simpl; [discriminate|].
  destruct (String.eqb k k').
  - intros [= ->]. lia.
  - intros H. specialize (IH H). lia.
Qed.

Lemma lookup_combine_height (k : string) (ks : list string) (es : list value)
    (x : value) :
  lookup k (combine ks es) = Some x -> height x <= list_max (map height es).
Proof.
  revert es. induction ks as [|k0 ks IH]; intros [|e es]; simpl; try discriminate.
  destruct (String.eqb k k0).
  - intros [= ->]. lia.
  - intros H. specialize (IH _ H). lia.
Qed.

(** An enumerable property lies strictly below its holder. *)
Lemma enumerable_height (v : value) (k : string) (x : value) :
  lookup k (enumerable_props v) = Some x -> height x < height v.
Proof.
  destruct v; simpl; try discriminate; intros H.
  - apply lookup_combine_height in H. lia.
  - apply lookup_height in H. lia.
Qed.

Lemma read_enumerable (v : value) (k : string) (x : value) :
  lookup k (enumerable_props v) = Some x ->
  own_property v k = Some x /\ read v k = x.
Proof.
  unfold read. destruct v; simpl; try discriminate; intros H; rewrite H; auto.
Qed.

Lemma forallb_ext_in {A : Type} (f g : A -> bool) (l : list A) :
  (forall x, In x l -> f x = g x) -> forallb f l = forallb g l.
Proof.
  induction l as [|a l IH]; intros H; simpl; auto.
  rewrite (H a (or_introl eq_refl)), IH; auto.
  intros x Hx. apply H. now right.
Qed.

(** Any budget above the height of [a] gives the same answer. *)
Lemma deepEquals_upto_any (f1 : nat) :
  forall (f2 : nat) (a b : value),
    height a < f1 -> height a < f2 ->
    deepEquals_upto f1 a b = deepEquals_upto f2 a b.
Proof.
  induction f1 as [|f1 IH]; intros f2 a b H1 H2; [lia|].
  destruct f2 as [|f2]; [lia|]. simpl.
  destruct (strict_eq a b); auto.
  destruct (nullish a || nullish b); auto.
  destruct (negb (typeof_object a) || negb (typeof_object b)); auto.
  destruct (negb _); auto.
  apply forallb_ext_in. intros key Hkey.
  destruct (in_keys_lookup _ _ Hkey) as (x & Hx).
  destruct (read_enumerable _ _ _ Hx) as [_ ->].
  pose proof (enumerable_height _ _ _ Hx).
  destruct (own_property b key); auto. apply IH; lia.
Qed.

Lemma deepEquals_upto_enough (fuel : nat) (a b : value) :
  height a < fuel -> deepEquals_upto fuel a b = deepEquals a b.
Proof. intros H. apply deepEquals_upto_any; lia. Qed.

(** Two property lists that agree once stripped hold, under every key,
    values that agree once stripped. *)
Lemma lookup_stripped (k : string) (ps : props) :
  forall ps' : props,
    map (fun p => (fst p, strip (snd p))) ps
    = map (fun p => (fst p, strip (snd p))) ps' ->
    match lookup k ps, lookup k ps' with
    | Some x, Some y => strip x = strip y
    | None, None => True
    | _, _ => False
    end.
Proof.
  induction ps as [|[k0 v0] ps IH]; intros [|[k1 v1] ps']; simpl;
    try discriminate; auto.
  intros [= <- Hv Hrest]. destruct (String.eqb k k0); [exact Hv|].
  apply IH. exact Hrest.
Qed.

Lemma combine_stripped (ks : list string) :
  forall es es' : list value,
    map strip es = map strip es' ->
    map (fun p => (fst p, strip (snd p))) (combine ks es)
    = map (fun p => (fst p, strip (snd p))) (combine ks es').
Proof.
  induction ks as [|k ks IH]; intros [|e es] [|e' es']; simpl;
    try discriminate; auto.
  intros [= He Hes]. rewrite He. f_equal. now apply IH.
Qed.

Lemma enumerable_stripped (a b : value) :
  strip a = strip b ->
  typeof_object a = true -> a <> VNull ->
  typeof_object b = true /\ b <> VNull
  /\ keys (enumerable_props a) = keys (enumerable_props b)
  /\ map (fun p => (fst p, strip (snd p))) (enumerable_props a)
     = map (fun p => (fst p, strip (snd p))) (enumerable_props b).
Proof.
  intros Hs Ha Hn.
  destruct a; simpl in Ha; try discriminate; try congruence;
    destruct b; simpl in Hs; try discriminate.
  - repeat split; auto; discriminate.
  - injection Hs as Hs.
    assert (Hlen : List.length elems = List.length elems0)
      by (rewrite <- (length_map strip elems), Hs; apply length_map).
    assert (Hm := combine_stripped
                    (map index_key (seq 0 (List.length elems))) _ _ Hs).
    simpl. rewrite <- Hlen.
    repeat split; auto; try discriminate.
    unfold keys.
    apply (f_equal (map fst)) in Hm. rewrite !map_map in Hm. exact Hm.
  - injection Hs as Hs. simpl.
    repeat split; auto; try discriminate.
    unfold keys. apply (f_equal (map fst)) in Hs. rewrite !map_map in Hs.
    exact Hs.
Qed.

Lemma strip_scalar (a b : value) :
  typeof_object a = false \/ a = VNull -> strip a = strip b -> a = b.
Proof.
  intros [Ha| ->] Hs.
  - destruct a; simpl in Ha; try discriminate;
      destruct b; simpl in Hs; try discriminate; auto.
  - destruct b; simpl in Hs; try discriminate; auto.
Qed.

Lemma stripped_deepEquals (fuel : nat) :
  forall a b : value,
    height a < fuel -> strip a = strip b -> deepEquals_upto fuel a b = true.
Proof.
  induction fuel as [|fuel IH]; intros a b Hh Hs; [lia|].
  simpl. destruct (strict_eq a b) eqn:Heq; auto.
  destruct (typeof_object a) eqn:Ha.
  2: { rewrite (strip_scalar a b) in Heq by auto.
      now rewrite strict_eq_refl in Heq. }
  assert (Hn : a <> VNull).
  { intros ->. rewrite <- (strip_scalar VNull b) in Heq by auto. discriminate. }
  destruct (enumerable_stripped a b Hs Ha Hn) as (Hb & Hbn & Hkeys & Hprops).
  assert (Hna : nullish a = false) by (destruct a; simpl in *; congruence).
  assert (Hnb : nullish b = false) by (destruct b; simpl in *; congruence).
  rewrite Hna, Hnb, Hb. simpl. rewrite <- Hkeys, Nat.eqb_refl. simpl.
  apply forallb_forall. intros key Hkey.
  destruct (in_keys_lookup _ _ Hkey) as (x & Hx).
  pose proof (lookup_stripped key _ _ Hprops) as Hpair. rewrite Hx in Hpair.
  destruct (lookup key (enumerable_props b)) as [y|] eqn:Hy; [|contradiction].
  destruct (read_enumerable _ _ _ Hx) as [_ ->].
  destruct (read_enumerable _ _ _ Hy) as [-> _].
  apply IH; auto. pose proof (enumerable_height _ _ _ Hx). lia.
Qed.

(** X4.  On values that hold no NaN, [deepEquals] looks through identity:
    two values that differ only in the identities of their objects and
    arrays (and in which Error instance stands where) compare equal.  On an
    operand that is no object it is [===]: functions compare by reference,
    and [null] is not [undefined]. *)
Theorem deepEquals_ignores_identity (a b : value) :
  (strip a = strip b -> deepEquals a b = true)
  /\ (typeof_object a && negb (nullish a)
      && (typeof_object b && negb (nullish b)) = false ->
      deepEquals a b = strict_eq a b).
Proof.
  split.
  - intros Hs. apply stripped_deepEquals; auto.
  - intros H. unfold deepEquals. simpl.
    destruct (strict_eq a b); auto.
    destruct (nullish a), (nullish b), (typeof_object a), (typeof_object b);
      simpl in *; auto; discriminate.
Qed.

(* ================================================================== *)
(** ** createGetterHook, useStoreFields *)
(* ================================================================== *)

Lemma strict_eq_null (v : value) : strict_eq v VNull = true -> v = VNull.
Proof. destruct v; simpl; intros; try discriminate; reflexivity. Qed.

Lemma cached_snapshots (getter : Getter) (r0 : value) (ws : list world) :
  (forall w, In w ws ->
     strip (fst (getter (state w) (next_ref w))) = strip r0) ->
  Forall (fun r => r = r0) (getter_snapshots getter None r0 ws).
Proof.
  induction ws as [|w ws IH]; intros H; simpl; [constructor|].
  pose proof (H w (or_introl eq_refl)) as Hw.
  unfold getter_snapshot, Zustand.getState.
  destruct (getter (state w) (next_ref w)) as [current n]. simpl in Hw.
  assert (Hrest : Forall (fun r => r = r0) (getter_snapshots getter None r0 ws))
    by (apply IH; intros w' Hw'; apply H; now right).
  destruct (strict_eq r0 VNull) eqn:Hnull.
  - apply strict_eq_null in Hnull. subst r0.
    assert (current = VNull) by (symmetry; apply strip_scalar; auto).
    subst current. now constructor.
  - assert (Heq : deepEquals r0 current = true)
      by (apply stripped_deepEquals; auto).
    rewrite Heq. now constructor.
Qed.

(** X5.  Take a run of calls of one snapshot closure of
    [createGetterHook] (default comparison), from its first call on, while
    the store changes.  If in every call of the run what the getter builds
    differs from what it built in the first call in identity only (and holds
    no NaN), then every call of the run answers with the value built first,
    the very same reference. *)
Theorem getter_snapshot_is_stable (getter : Getter) (w0 : world)
    (ws : list world) :
  (forall w, In w ws ->
     strip (fst (getter (state w) (next_ref w)))
     = strip (fst (getter (state w0) (next_ref w0)))) ->
  Forall (fun r => r = fst (getter (state w0) (next_ref w0)))
         (getter_snapshots getter None VNull (w0 :: ws)).
Proof.
  intros H. simpl. unfold getter_snapshot at 1, Zustand.getState.
  destruct (getter (state w0) (next_ref w0)) as [r0 n] eqn:E0. simpl in *.
  constructor; [reflexivity|]. now apply cached_snapshots.
Qed.

Lemma getter_snapshot_is_stable_witness :
  (forall w, In w [counter_world_step5] ->
     strip (fst (count_summary (state w) (next_ref w)))
     = strip (fst (count_summary (state counter_world)
                                 (next_ref counter_world))))
  /\ getter_snapshots count_summary None VNull
       [counter_world; counter_world_step5]
     = [VObj 2 [("total", VNum 0)]; VObj 2 [("total", VNum 0)]]
  /\ fst (count_summary (state counter_world_step5)
                        (next_ref counter_world_step5))
     = VObj 9 [("total", VNum 0)].
Proof.
  assert (H : forall w, In w [counter_world_step5] ->
     strip (fst (count_summary (state w) (next_ref w)))
     = strip (fst (count_summary (state counter_world)
                                 (next_ref counter_world)))).
  { intros w [<-|[]]. reflexivity. }
  split; [exact H|]. split; [|reflexivity].
  pose proof (getter_snapshot_is_stable count_summary counter_world
                [counter_world_step5] H) as HF.
  inversion HF as [|r1 l1 E1 HF1]; subst.
  inversion HF1 as [|r2 l2 E2 HF2]; subst.
  inversion HF2; subst.
  reflexivity.
Defined.





(* ================================================================== *)
(** ** createHybridStore, createHybridHook and the options of
       wrapAsyncOperation *)
(* ================================================================== *)

(** The commit of an object literal built on the spot (no other allocation
    in between), with all it leaves behind. *)
Lemma literal_action (w : world) (ps : props) :
  allocated w ->
  let w' := Zustand.setState (Partial (VObj (next_ref w) ps)) None
                             (snd (fresh w)) in
  state w' = VObj (S (next_ref w))
                  (assign_from (assign_from [] (own_props (state w))) ps)
  /\ next_ref w' = S (S (next_ref w))
  /\ listeners w' = listeners w
  /\ allocated w'
  /\ strict_eq (state w') (state w) = false
  /\ trace w' = trace w ++ flat_map (emitted (state w') (state w)) (listeners w).
Proof.
  intros Ha w'.
  destruct (literal_commit w 0 ps Ha) as (Hst & Hnew & Htr).
  cbn [Nat.add] in *.
  assert (Hne : Object_is (VObj (next_ref w) ps) (state (snd (fresh w))) = false)
    by (change (state (snd (fresh w))) with (state w);
        apply literal_is_not_the_state; [exact Ha|lia]).
  assert (Hn : next_ref w' = S (S (next_ref w))).
  { unfold w', Zustand.setState. rewrite Hne. cbn [typeof_object negb orb strict_eq].
    cbn [fresh snd next_ref].
    match goal with |- next_ref (Zustand.notify ?a ?b ?c) = _ =>
      now destruct (notify_frame a b c) as (-> & _) end. }
  repeat split; auto.
  - unfold w'. now rewrite setState_listeners.
  - assert (Hst' : state w' = VObj (S (next_ref w))
              (assign_from (assign_from [] (own_props (state w))) ps))
      by exact Hst.
    unfold allocated. rewrite Hst', Hn. simpl. lia.
Qed.

(** X8.  The store [createHybridStore] returns reads, through the hooks of
    [createHybridHook], as not loading, without error, with the initial
    state as data.  While an operation wrapped with the default options is
    pending, the same hooks read loading and no error, also when the state
    still held the error of an earlier failure; data and the time of the
    last update are untouched, and the listeners ran once. *)
Theorem pending_reads_loading_and_clears_error
    (initialState : value) (created : Z) (n : ref) (w : world) :
  (let store := createHybridStore initialState created n in
   useData store = initialState /\ useLoading store = VBool false
   /\ useError store = VNull /\ useLastUpdate store = VNum created
   /\ allocated store)
  /\ (allocated w ->
      let pending := announce default_async_options w in
      useLoading pending = VBool true
      /\ useError pending = VNull
      /\ useData pending = useData w
      /\ useLastUpdate pending = useLastUpdate w
      /\ trace pending
         = trace w ++ flat_map (emitted (state pending) (state w)) (listeners w)).
Proof.
  split.
  - cbv zeta. unfold allocated. simpl. repeat split; auto.
  - intros Ha pending.
    destruct (literal_action w [("_isLoading", VBool true); ("_error", VNull)] Ha)
      as (Hst & _ & _ & _ & _ & Htr).
    unfold pending, announce. cbn [setLoading default_async_options fresh].
    cbn [fresh snd] in Hst, Htr.
    unfold useLoading, useError, useData, useLastUpdate, Zustand.getState.
    rewrite Hst, !get_merged. repeat split; auto.
    rewrite <- Hst. exact Htr.
Qed.

Lemma pending_reads_loading_and_clears_error_witness :
  let pending := announce default_async_options failed_world in
  allocated failed_world
  /\ useError failed_world = VErr 7 "second"
  /\ useLoading pending = VBool true
  /\ useError pending = VNull.
Proof.
  intros pending.
  assert (Ha : allocated failed_world) by (unfold allocated; simpl; lia).
  split; [exact Ha|]. split; [reflexivity|].
  pose proof (proj2 (pending_reads_loading_and_clears_error VNull 0 0
                       failed_world) Ha) as H.
  split; [exact (proj1 H)|exact (proj1 (proj2 H))].
Defined.

(** X9.  Each option of [wrapAsyncOperation] switches one commit off.
    Without [setLoading] nothing is committed before the operation starts.
    Without [setError] a rejection is still thrown as an Error, but nothing
    is committed for it: state and listeners are left as the operation left
    them, so a store that was set to loading keeps reading as loading. *)
Theorem async_options_switch_commits_off
    (String_of : value -> string) (operation : world -> settled * world)
    (now : Z) (w : world) (flag : bool) (e : value) (w2 : world) :
  operation (announce (mkAsyncOptions flag false) w) = (Rejected e, w2) ->
  let out := wrapAsyncOperation String_of operation
               (Some (mkAsyncOptions flag false)) now w in
  announce (mkAsyncOptions false flag) w = w
  /\ (exists errorObj, fst out = Thrown errorObj
                       /\ instanceof_Error errorObj = true)
  /\ state (snd out) = state w2
  /\ trace (snd out) = trace w2
  /\ listeners (snd out) = listeners w2
  /\ useLoading (snd out) = useLoading w2.
Proof.
  intros Hop out. split; [reflexivity|].
  unfold out, wrapAsyncOperation. rewrite Hop. unfold settle. cbn [setError].
  destruct (instanceof_Error e) eqn:He; cbn [fresh fst snd];
    repeat split; eauto.
Qed.

(** An operation that throws without touching the store. *)
Lemma async_options_switch_commits_off_witness :
  let failing := fun w1 : world => (Rejected (VStr "boom"), w1) in
  let quiet := mkAsyncOptions true false in
  let out := wrapAsyncOperation message_of failing (Some quiet) 42 hybrid_world in
  failing (announce quiet hybrid_world)
  = (Rejected (VStr "boom"), announce quiet hybrid_world)
  /\ useLoading hybrid_world = VBool false
  /\ useLoading (snd out) = VBool true
  /\ useError (snd out) = VNull.
Proof.
  intros failing quiet out.
  split; [reflexivity|]. split; [reflexivity|].
  pose proof (async_options_switch_commits_off message_of failing 42
                hybrid_world true (VStr "boom") (announce quiet hybrid_world)
                eq_refl) as H.
  split; [|reflexivity].
  exact (eq_trans (proj2 (proj2 (proj2 (proj2 (proj2 H))))) eq_refl).
Defined.

(* ================================================================== *)
(** ** The counter actions *)
(* ================================================================== *)

Lemma one_field_action (w : world) (k : string) (v : value) :
  allocated w ->
  one_field_outcome w
    (Zustand.setState (Partial (VObj (next_ref w) [(k, v)])) None (snd (fresh w)))
    k v.
Proof.
  intros Ha.
  destruct (literal_action w [(k, v)] Ha) as (Hst & Hn & Hl & Ha' & Hne & Htr).
  unfold one_field_outcome. repeat split; auto.
  - rewrite Hst, get_merged. simpl. now rewrite String.eqb_refl.
  - intros k' Hk'. rewrite Hst, get_merged. simpl.
    destruct (String.eqb_spec k' k); [contradiction|reflexivity].
  - now rewrite Hst.
Qed.

Lemma increment_spec (plus : operator) (w : world) :
  allocated w ->
  one_field_outcome w (Counter.increment plus w) "count"
    (plus (get (state w) "count") (get (state w) "step")).
Proof. intros Ha. exact (one_field_action w "count" _ Ha). Qed.

Lemma decrement_spec (minus : operator) (w : world) :
  allocated w ->
  one_field_outcome w (Counter.decrement minus w) "count"
    (minus (get (state w) "count") (get (state w) "step")).
Proof. intros Ha. exact (one_field_action w "count" _ Ha). Qed.

Lemma setStep_spec (step : value) (w : world) :
  allocated w ->
  one_field_outcome w (Counter.setStep step w) "step" step.
Proof. intros Ha. exact (one_field_action w "step" _ Ha). Qed.

(** A state with a later identity is not the state. *)
Lemma later_state_differs (w w' : world) (id : ref) :
  allocated w -> ref_of (state w') = Some id -> next_ref w <= id ->
  strict_eq (state w') (state w) = false.
Proof.
  unfold allocated. intros Ha Hid Hle.
  destruct (state w'), (state w); simpl in *; auto; try discriminate;
    injection Hid as ->; apply Nat.eqb_neq; lia.
Qed.

(** X10.  [increment] followed by [decrement] leaves [count] at
    [(count + step) - step], as the [+] and [-] of the language compute it,
    and every other field as it was.  So [count] is back exactly when that
    subtraction undoes the addition, which double-precision arithmetic does
    not promise.  The state is a new object in any case, and the listeners
    have run twice: once for each commit. *)
Theorem increment_then_decrement_restores_count
    (plus minus : operator) (w : world) :
  allocated w ->
  let c := get (state w) "count" in
  let s := get (state w) "step" in
  let up := Counter.increment plus w in
  let back := Counter.decrement minus up in
  get (state up) "count" = plus c s
  /\ get (state back) "count" = minus (plus c s) s
  /\ (forall k, k <> "count" -> get (state back) k = get (state w) k)
  /\ (minus (plus c s) s = c -> forall k, get (state back) k = get (state w) k)
  /\ strict_eq (state back) (state w) = false
  /\ trace back
     = trace w ++ flat_map (emitted (state up) (state w)) (listeners w)
               ++ flat_map (emitted (state back) (state up)) (listeners w).
Proof.
  intros Ha c s up back.
  destruct (increment_spec plus w Ha) as (H1 & H2 & H3 & H4 & _ & Hn & H6).
  fold up c s in H1, H2, H3, H4, Hn, H6.
  destruct (decrement_spec minus up H3) as (G1 & G2 & _ & _ & Gid & _ & G6).
  fold back in G1, G2, Gid, G6.
  rewrite H1, (H2 "step") in G1 by discriminate. fold s in G1.
  assert (Hrest : forall k, k <> "count" -> get (state back) k = get (state w) k).
  { intros k Hk. now rewrite G2, H2. }
  split; [exact H1|]. split; [exact G1|]. split; [exact Hrest|].
  split; [|split].
  - intros Hback k. destruct (String.eqb_spec k "count") as [->|Hk].
    + now rewrite G1.
    + now apply Hrest.
  - apply later_state_differs with (id := S (next_ref up)); auto. lia.
  - rewrite G6, H6, H4, <- app_assoc. reflexivity.
Qed.

(** The scenario of a counter at [{count: 0, step: 1}]. *)
Lemma increment_then_decrement_restores_count_witness :
  let up := Counter.increment whole_plus counter_world in
  let back := Counter.decrement whole_minus up in
  allocated counter_world
  /\ get (state counter_world) "count" = VNum 0
  /\ get (state counter_world) "step" = VNum 1
  /\ get (state up) "count" = VNum 1
  /\ get (state back) "count" = VNum 0
  /\ (forall k, get (state back) k = get (state counter_world) k)
  /\ strict_eq (state back) (state counter_world) = false.
Proof.
  intros up back.
  assert (Ha : allocated counter_world) by (unfold allocated; simpl; lia).
  split; [exact Ha|]. split; [reflexivity|]. split; [reflexivity|].
  pose proof (increment_then_decrement_restores_count whole_plus whole_minus
                counter_world Ha) as H.
  split; [exact (proj1 H)|].
  split; [exact (proj1 (proj2 H))|].
  split; [exact (proj1 (proj2 (proj2 (proj2 H))) eq_refl)|].
  exact (proj1 (proj2 (proj2 (proj2 (proj2 H))))).
Defined.

(** X12.  [reset] sets [count] to 0 and [step] to 1 and keeps every other
    field (the actions stored beside them); the new state is a merged copy,
    not the initial object.  When the state is the initial object itself,
    as in a store just made by [createImmerStore(initialCounterState)],
    [reset] does nothing and no listener is called; on a store just made by
    [createStoreWithActions], whose state is a copy, it commits a new
    state. *)
Theorem reset_restores_initial_values
    (id : ref) (w : world) (n : ref) (actions : value) :
  allocated w ->
  Object_is (Counter.initialCounterState id) (state w) = false ->
  let w' := Counter.reset id w in
  let made := createImmerStore (Counter.initialCounterState id) n in
  let copied := createStoreWithActions (Counter.initialCounterState id) actions n in
  get (state w') "count" = VNum 0
  /\ get (state w') "step" = VNum 1
  /\ (forall k, k <> "count" -> k <> "step" ->
                get (state w') k = get (state w) k)
  /\ ref_of (state w') = Some (next_ref w)
  /\ trace w' = trace w ++ flat_map (emitted (state w') (state w)) (listeners w)
  /\ Counter.reset id made = made
  /\ (id <> n -> ref_of (state copied) = Some n
                 /\ ref_of (state (Counter.reset id copied)) = Some (S n)).
Proof.
  intros Ha Hne w' made copied.
  assert (Hst : state w' = VObj (next_ref w)
            (assign_from (assign_from [] (own_props (state w)))
                         [("count", VNum 0); ("step", VNum 1)]))
    by exact (setState_merges _ w Hne eq_refl ltac:(discriminate)).
  repeat split.
  - rewrite Hst, get_merged. reflexivity.
  - rewrite Hst, get_merged. reflexivity.
  - intros k H1 H2. rewrite Hst, get_merged. simpl.
    destruct (String.eqb_spec k "count"); [contradiction|].
    destruct (String.eqb_spec k "step"); [contradiction|]. reflexivity.
  - now rewrite Hst.
  - unfold w', Counter.reset. rewrite setState_trace. unfold resolved.
    now rewrite Hne.
  - apply setState_unchanged. unfold resolved, Object_is. simpl.
    apply Nat.eqb_refl.
  - assert (Hc : Object_is (Counter.initialCounterState id) (state copied) = false)
      by (unfold Object_is; simpl; now apply Nat.eqb_neq).
    unfold Counter.reset.
    now rewrite (setState_merges _ copied Hc eq_refl ltac:(discriminate)).
Qed.

Lemma reset_restores_initial_values_witness :
  let w := Counter.incrementBy whole_plus (VNum 7)
             (Counter.setStep (VNum 3) counter_world) in
  let w' := Counter.reset 40 w in
  allocated w
  /\ Object_is (Counter.initialCounterState 40) (state w) = false
  /\ get (state w) "count" = VNum 7
  /\ get (state w) "step" = VNum 3
  /\ get (state w') "count" = VNum 0
  /\ get (state w') "step" = VNum 1.
Proof.
  intros w w'.
  assert (Ha : allocated w) by (unfold allocated; simpl; lia).
  split; [exact Ha|]. split; [reflexivity|].
  split; [reflexivity|]. split; [reflexivity|].
  pose proof (reset_restores_initial_values 40 w 0 VUndefined Ha eq_refl) as H.
  split; [exact (proj1 H)|exact (proj1 (proj2 H))].
Defined.

(** The calls a field watcher receives from one [setState], when it is
    the last listener and no other listener calls its callback. *)
Lemma watcher_calls (w : world) (ls : list listener) (id : ref)
    (key : string) (cb : ref) (partial : PartialState) (replace : option bool) :
  listeners w = ls ++ [FieldWatcher id key cb] ->
  Forall (fun l => callee l <> cb) ls ->
  let w' := Zustand.setState partial replace w in
  calls_to cb (trace w')
  = calls_to cb (trace w)
    ++ (if strict_neq (get (state w') key) (get (state w) key)
        then [[get (state w') key; get (state w) key]]
        else []).
Proof.
  intros Hreg Hother w'. unfold w'. rewrite setState_trace.
  destruct (Object_is (resolved partial w) (state w)) eqn:Hsame.
  - rewrite (setState_unchanged _ _ _ Hsame), strict_neq_refl, !app_nil_r.
    reflexivity.
  - rewrite calls_to_app. f_equal.
    rewrite Hreg, flat_map_app, calls_to_app, calls_to_emitted_other by exact Hother.
    simpl. destruct (strict_neq _ _); simpl; auto.
    now rewrite Nat.eqb_refl.
Qed.

Lemma subscribeTo_registers (w : world) (key : string) (cb : ref) :
  Forall (fun l => listener_id l < next_ref w) (listeners w) ->
  let w1 := snd (StoreHelper.subscribeTo key cb no_options w) in
  listeners w1 = listeners w ++ [FieldWatcher (next_ref w) key cb]
  /\ state w1 = state w /\ trace w1 = trace w
  /\ next_ref w1 = S (next_ref w).
Proof.
  intros Hfresh. unfold StoreHelper.subscribeTo, Zustand.subscribe. simpl.
  assert (Hno : existsb (Zustand.same_listener (FieldWatcher (next_ref w) key cb))
                        (listeners w) = false).
  { clear - Hfresh. induction Hfresh as [|l ls Hl _ IH]; simpl; auto.
    rewrite IH, orb_false_r. unfold Zustand.same_listener. simpl.
    apply Nat.eqb_neq. lia. }
  rewrite Hno. simpl. auto.
Qed.

(** X13.  A watcher of [count] registered with [subscribeTo] is not
    called by [setStep] (the count not being NaN), and is called by
    [increment] exactly when [count + step !== count], with the new and the
    previous count.  When the sum is the count as it was, [increment]
    still commits a new state, of which the watcher hears nothing. *)
Theorem count_watcher_and_counter_actions
    (plus : operator) (w : world) (cb : ref) (step : value) :
  allocated w ->
  Forall (fun l => listener_id l < next_ref w) (listeners w) ->
  Forall (fun l => callee l <> cb) (listeners w) ->
  let c := get (state w) "count" in
  let s := get (state w) "step" in
  let w1 := snd (StoreHelper.subscribeTo "count" cb no_options w) in
  calls_to cb (trace (Counter.setStep step w1)) = calls_to cb (trace w1)
  /\ calls_to cb (trace (Counter.increment plus w1))
     = calls_to cb (trace w1)
       ++ (if strict_neq (plus c s) c then [[plus c s; c]] else [])
  /\ strict_eq (state (Counter.increment plus w1)) (state w1) = false.
Proof.
  intros Ha Hfresh Hother c s w1.
  destruct (subscribeTo_registers w "count" cb Hfresh) as (Hl & Hst & Htr & Hn).
  fold w1 in Hl, Hst, Htr, Hn.
  assert (Ha1 : allocated w1).
  { unfold allocated in *. rewrite Hst, Hn. destruct (ref_of (state w)); auto. }
  assert (Hl' : listeners (snd (fresh w1))
                = listeners w ++ [FieldWatcher (next_ref w) "count" cb])
    by exact Hl.
  split; [|split].
  - destruct (setStep_spec step w1 Ha1) as (_ & G2 & _).
    pose proof (watcher_calls (snd (fresh w1)) _ _ _ _
                  (Partial (VObj (next_ref w1) [("step", step)])) None
                  Hl' Hother) as Hcalls.
    cbv zeta in Hcalls.
    change (Zustand.setState (Partial (VObj (next_ref w1) [("step", step)]))
              None (snd (fresh w1))) with (Counter.setStep step w1) in Hcalls.
    change (state (snd (fresh w1))) with (state w1) in Hcalls.
    change (trace (snd (fresh w1))) with (trace w1) in Hcalls.
    rewrite (G2 "count") in Hcalls by discriminate.
    now rewrite strict_neq_refl, app_nil_r in Hcalls.
  - destruct (increment_spec plus w1 Ha1) as (G1 & _).
    pose proof (watcher_calls (snd (fresh w1)) _ _ _ _
                  (Partial (VObj (next_ref w1)
                     [("count", plus (get (state w1) "count")
                                     (get (state w1) "step"))])) None
                  Hl' Hother) as Hcalls.
    cbv zeta in Hcalls.
    change (Zustand.setState _ None (snd (fresh w1)))
      with (Counter.increment plus w1) in Hcalls.
    change (state (snd (fresh w1))) with (state w1) in Hcalls.
    change (trace (snd (fresh w1))) with (trace w1) in Hcalls.
    rewrite G1, Hst in Hcalls. exact Hcalls.
  - destruct (increment_spec plus w1 Ha1) as (_ & _ & _ & _ & Gid & _).
    apply later_state_differs with (id := S (next_ref w1)); auto.
Qed.

(** A counter at step 1, whose watcher is called, and one at step 0, whose
    watcher is not. *)
Lemma count_watcher_and_counter_actions_witness :
  let still := mkWorld 2 (VObj 0 [("count", VNum 4); ("step", VNum 0)]) []
                       (mkHistory [] VUndefined []) [] in
  let moving := mkWorld 2 (VObj 0 [("count", VNum 4); ("step", VNum 1)]) []
                        (mkHistory [] VUndefined []) [] in
  let w0 := snd (StoreHelper.subscribeTo "count" 7 no_options still) in
  let w1 := snd (StoreHelper.subscribeTo "count" 7 no_options moving) in
  allocated still /\ allocated moving
  /\ calls_to 7 (trace (Counter.increment whole_plus w0)) = []
  /\ strict_eq (state (Counter.increment whole_plus w0)) (state w0) = false
  /\ calls_to 7 (trace (Counter.increment whole_plus w1)) = [[VNum 5; VNum 4]]
  /\ calls_to 7 (trace (Counter.setStep (VNum 3) w1)) = [].
Proof.
  intros still moving w0 w1.
  assert (Ha : allocated still) by (unfold allocated; simpl; lia).
  assert (Hb : allocated moving) by (unfold allocated; simpl; lia).
  split; [exact Ha|]. split; [exact Hb|].
  pose proof (count_watcher_and_counter_actions whole_plus still 7 VNull Ha
                (Forall_nil _) (Forall_nil _)) as H.
  pose proof (count_watcher_and_counter_actions whole_plus moving 7 (VNum 3) Hb
                (Forall_nil _) (Forall_nil _)) as G.
  split; [exact (proj1 (proj2 H))|]. split; [exact (proj2 (proj2 H))|].
  split; [exact (proj1 (proj2 G))|exact (proj1 G)].
Defined.

(* ================================================================== *)
(** ** The cart actions *)
(* ================================================================== *)

(** The commit of an object literal with identity [id], the last thing
    allocated. *)
Lemma literal_commit_at (w : world) (id : ref) (ps : props) :
  allocated w -> next_ref w <= id ->
  let w' := Zustand.setState (Partial (VObj id ps)) None
              (mkWorld (S id) (state w) (listeners w) (historyRef w) (trace w)) in
  (forall k, get (state w') k
             = match lookup k ps with Some v => v | None => get (state w) k end)
  /\ next_ref w' = S (S id)
  /\ allocated w'
  /\ listeners w' = listeners w
  /\ trace w' = trace w ++ flat_map (emitted (state w') (state w)) (listeners w).
Proof.
  intros Ha Hle w'.
  set (w0 := mkWorld (S id) (state w) (listeners w) (historyRef w) (trace w)).
  assert (Hne : Object_is (VObj id ps) (state w0) = false)
    by (change (state w0) with (state w); now apply literal_is_not_the_state).
  assert (Hst : state w' = VObj (S id)
            (assign_from (assign_from [] (own_props (state w))) ps))
    by exact (setState_merges _ w0 Hne eq_refl ltac:(discriminate)).
  assert (Hn : next_ref w' = S (S id)).
  { unfold w', Zustand.setState. fold w0. rewrite Hne.
    cbn [typeof_object negb orb strict_eq fresh].
    match goal with |- next_ref (Zustand.notify ?a ?b ?c) = _ =>
      now destruct (notify_frame a b c) as (-> & _) end. }
  repeat split; auto.
  - intros k. rewrite Hst, get_merged. unfold get.
    now destruct (lookup k ps).
  - unfold allocated. rewrite Hst, Hn. simpl. lia.
  - unfold w'. fold w0. now rewrite setState_listeners.
  - unfold w'. fold w0. rewrite setState_trace. unfold resolved.
    now rewrite Hne.
Qed.

Lemma removeItem_spec (itemId : value) (w : world) :
  allocated w ->
  let w' := Cart.removeItem itemId w in
  get (state w') "items"
  = VArr (next_ref w) (Cart.without itemId (elems_of (get (state w) "items")))
  /\ (forall k, k <> "items" -> get (state w') k = get (state w) k)
  /\ allocated w'
  /\ trace w' = trace w ++ flat_map (emitted (state w') (state w)) (listeners w).
Proof.
  intros Ha w'.
  pose proof (literal_commit_at w (S (next_ref w))
              [("items", VArr (next_ref w)
                           (Cart.without itemId (elems_of (get (state w) "items"))))]
              Ha ltac:(lia)) as H.
  change (Zustand.setState _ _ _) with w' in H.
  destruct H as (Hget & _ & Ha' & _ & Htr).
  split; [rewrite Hget; reflexivity|].
  split; [|split; assumption].
  intros k Hk. rewrite Hget. simpl.
  destruct (String.eqb_spec k "items"); [contradiction|reflexivity].
Qed.

Lemma without_twice (itemId : value) (items : list value) :
  Cart.without itemId (Cart.without itemId items) = Cart.without itemId items.
Proof.
  unfold Cart.without. induction items as [|item items IH]; simpl; auto.
  destruct (strict_neq (get item "id") itemId) eqn:E; simpl; auto.
  now rewrite E, IH.
Qed.

(** X14.  [removeItem(itemId)] leaves in [items] the items whose [id] is
    not [itemId], the same objects in the same order, and touches no other
    field; removing the same id again changes nothing more.  [items] is a
    new array every time, also when no item had that id. *)
Theorem removeItem_drops_every_match (itemId : value) (w : world) :
  allocated w ->
  let before := elems_of (get (state w) "items") in
  let w' := Cart.removeItem itemId w in
  let after := elems_of (get (state w') "items") in
  after = Cart.without itemId before
  /\ Forall (fun item => strict_neq (get item "id") itemId = true) after
  /\ (forall item, In item before ->
        strict_neq (get item "id") itemId = true -> In item after)
  /\ elems_of (get (state (Cart.removeItem itemId w')) "items") = after
  /\ (forall k, k <> "items" -> get (state w') k = get (state w) k)
  /\ ref_of (get (state w') "items") = Some (next_ref w).
Proof.
  intros Ha before w' after.
  destruct (removeItem_spec itemId w Ha) as (Hitems & Hframe & Ha' & _).
  fold w' in Hitems, Hframe, Ha'.
  destruct (removeItem_spec itemId w' Ha') as (Hagain & _).
  assert (Hafter : after = Cart.without itemId before)
    by (unfold after; now rewrite Hitems).
  repeat split; auto.
  - rewrite Hafter. unfold Cart.without. apply Forall_forall.
    intros item Hin. now apply filter_In in Hin.
  - intros item Hin Hne. rewrite Hafter. unfold Cart.without.
    apply filter_In. auto.
  - rewrite Hagain. simpl. fold after. rewrite Hafter. apply without_twice.
  - now rewrite Hitems.
Qed.

Lemma removeItem_drops_every_match_witness :
  let w' := Cart.removeItem (VStr "zzz") cart_world in
  allocated cart_world
  /\ elems_of (get (state w') "items") = elems_of (get cart_state "items")
  /\ ref_of (get cart_state "items") = Some 1
  /\ ref_of (get (state w') "items") = Some 4.
Proof.
  intros w'.
  assert (Ha : allocated cart_world) by (unfold allocated; simpl; lia).
  split; [exact Ha|].
  pose proof (removeItem_drops_every_match (VStr "zzz") cart_world Ha) as H.
  split; [exact (proj1 H)|]. split; [reflexivity|].
  exact (proj2 (proj2 (proj2 (proj2 (proj2 H))))).
Defined.

Lemma with_quantity_spec (floor : ref) (itemId : value) (quantity : Z)
    (items : list value) :
  forall n : ref,
    floor <= n ->
    Forall2 (requantified floor itemId quantity) items
            (fst (Cart.with_quantity itemId (VNum quantity) items n))
    /\ n <= snd (Cart.with_quantity itemId (VNum quantity) items n).
Proof.
  induction items as [|item items IH]; intros n Hn; simpl; [split; auto|].
  destruct (strict_eq (get item "id") itemId) eqn:E.
  - destruct (IH (S n) (le_S _ _ Hn)) as [H1 H2].
    destruct (Cart.with_quantity itemId (VNum quantity) items (S n)) as [rest n'].
    simpl in *. split; [|lia]. constructor; auto.
    unfold requantified. rewrite E. split; [eauto|]. split.
    + unfold get. simpl. now rewrite lookup_set_prop_same.
    + intros k Hk. unfold get. simpl.
      now rewrite lookup_set_prop_other, lookup_spread.
  - destruct (IH n Hn) as [H1 H2].
    destruct (Cart.with_quantity itemId (VNum quantity) items n) as [rest n'].
    simpl in *. split; [|lia]. constructor; auto.
    unfold requantified. now rewrite E.
Qed.

(** X15.  [updateQuantity(itemId, quantity)], for a whole-number quantity:
    with a quantity of 0 or less it leaves the items [removeItem] leaves.
    With a positive quantity the list keeps its length and order: an item
    with that id is replaced by a new object, one that did not exist before
    the call, which has the new quantity and every other field as before;
    any other item stays the same object.  [items] is a new array in either
    case, and no other field of the cart is touched. *)
Theorem updateQuantity_removes_or_requantifies
    (itemId : value) (quantity : Z) (w : world) :
  allocated w ->
  let before := elems_of (get (state w) "items") in
  let w' := Cart.updateQuantity itemId quantity w in
  let after := elems_of (get (state w') "items") in
  ((quantity <= 0)%Z ->
     after = elems_of (get (state (Cart.removeItem itemId w)) "items"))
  /\ ((0 < quantity)%Z ->
      Forall2 (requantified (S (next_ref w)) itemId quantity) before after)
  /\ ref_of (get (state w') "items") = Some (next_ref w)
  /\ (forall k, k <> "items" -> get (state w') k = get (state w) k).
Proof.
  intros Ha before w' after. unfold after, w', Cart.updateQuantity.
  destruct (Z.leb_spec quantity 0) as [Hq|Hq].
  - fold (Cart.removeItem itemId w).
    destruct (removeItem_spec itemId w Ha) as (Hitems & Hframe & _).
    split; [reflexivity|]. split; [lia|]. split; [|exact Hframe].
    now rewrite Hitems.
  - unfold Zustand.getState. cbn [fresh next_ref].
    destruct (with_quantity_spec (S (next_ref w)) itemId quantity before
                (S (next_ref w)) (le_n _)) as [Hmap Hle].
    fold before.
    destruct (Cart.with_quantity itemId (VNum quantity) before (S (next_ref w)))
      as [mapped n] eqn:E. simpl in Hmap, Hle.
    destruct (literal_commit_at w n [("items", VArr (next_ref w) mapped)]
                Ha ltac:(lia)) as (Hget & _).
    split; [lia|]. split; [|split].
    + intros _. rewrite Hget. exact Hmap.
    + rewrite Hget. reflexivity.
    + intros k Hk. rewrite Hget. simpl.
      destruct (String.eqb_spec k "items"); [contradiction|reflexivity].
Qed.

Lemma updateQuantity_removes_or_requantifies_witness :
  let w' := Cart.updateQuantity (VStr "b") 7 cart_world in
  allocated cart_world
  /\ Forall2 (requantified 5 (VStr "b") 7)
       (elems_of (get (state cart_world) "items"))
       (elems_of (get (state w') "items"))
  /\ Cart.getTotalItems whole_plus (state w') = VNum 9
  /\ elems_of (get (state (Cart.updateQuantity (VStr "b") 0 cart_world)) "items")
     = elems_of (get (state (Cart.removeItem (VStr "b") cart_world)) "items").
Proof.
  intros w'.
  assert (Ha : allocated cart_world) by (unfold allocated; simpl; lia).
  split; [exact Ha|].
  pose proof (updateQuantity_removes_or_requantifies (VStr "b") 7 cart_world Ha)
    as H.
  pose proof (updateQuantity_removes_or_requantifies (VStr "b") 0 cart_world Ha)
    as H0.
  split; [exact (proj1 (proj2 H) ltac:(lia))|].
  split; [reflexivity|].
  exact (proj1 H0 ltac:(lia)).
Defined.

(** X16.  [clearCart] empties the cart and drops the coupon: [items] is an
    empty array, [couponCode] is null, [discount] is 0 and the item count
    is 0; the tax rate, the shipping cost and every other field stay. *)
Theorem clearCart_keeps_rates (plus : operator) (w : world) :
  allocated w ->
  let w' := Cart.clearCart w in
  elems_of (get (state w') "items") = []
  /\ get (state w') "couponCode" = VNull
  /\ get (state w') "discount" = VNum 0
  /\ Cart.getTotalItems plus (state w') = VNum 0
  /\ get (state w') "taxRate" = get (state w) "taxRate"
  /\ get (state w') "shipping" = get (state w) "shipping"
  /\ (forall k, k <> "items" -> k <> "couponCode" -> k <> "discount" ->
                get (state w') k = get (state w) k).
Proof.
  intros Ha w'.
  pose proof (literal_commit_at w (S (next_ref w))
              [("items", VArr (next_ref w) []); ("couponCode", VNull);
               ("discount", VNum 0)] Ha ltac:(lia)) as H.
  change (Zustand.setState _ _ _) with w' in H.
  destruct H as (Hget & _).
  assert (Hkeep : forall k, k <> "items" -> k <> "couponCode" -> k <> "discount" ->
                            get (state w') k = get (state w) k).
  { intros k H1 H2 H3. rewrite Hget. simpl.
    destruct (String.eqb_spec k "items"); [contradiction|].
    destruct (String.eqb_spec k "couponCode"); [contradiction|].
    destruct (String.eqb_spec k "discount"); [contradiction|]. reflexivity. }
  repeat split; auto; try (rewrite Hget; reflexivity);
    try (apply Hkeep; discriminate).
  unfold Cart.getTotalItems. rewrite Hget. reflexivity.
Qed.

Lemma clearCart_keeps_rates_witness :
  allocated cart_world
  /\ get (state (Cart.clearCart cart_world)) "couponCode" = VNull
  /\ get (state (Cart.clearCart cart_world)) "shipping" = VNum 5
  /\ Cart.getTotalItems whole_plus cart_state = VNum 3
  /\ Cart.getTotalItems whole_plus (state (Cart.clearCart cart_world)) = VNum 0.
Proof.
  assert (Ha : allocated cart_world) by (unfold allocated; simpl; lia).
  split; [exact Ha|].
  pose proof (clearCart_keeps_rates whole_plus cart_world Ha) as H.
  split; [exact (proj1 (proj2 H))|].
  split; [exact (proj1 (proj2 (proj2 (proj2 (proj2 (proj2 H)))))) |].
  split; [reflexivity|exact (proj1 (proj2 (proj2 (proj2 H))))].
Defined.

(* ================================================================== *)
(** ** The todo list: [toggleAll] *)
(* ================================================================== *)

Lemma marked_spec (target : bool) (clock : nat -> Z) (todos : list value) :
  forall (i : nat) (n : ref),
    Forall2 (marked_as target) todos
            (fst (Todo.marked (VBool target) clock i todos n))
    /\ n <= snd (Todo.marked (VBool target) clock i todos n).
Proof.
  induction todos as [|todo todos IH]; intros i n; simpl; [split; auto|].
  destruct (IH (S i) (S n)) as [H1 H2].
  destruct (Todo.marked (VBool target) clock (S i) todos (S n)) as [rest n'].
  simpl in *. split; [|lia]. constructor; auto. split.
  - unfold get. simpl.
    rewrite lookup_set_prop_other by discriminate.
    now rewrite lookup_set_prop_same.
  - intros k Hc Hu. unfold get. simpl.
    now rewrite !lookup_set_prop_other, lookup_spread by auto.
Qed.

Lemma toggleAll_spec (clock : nat -> Z) (w : world) :
  allocated w ->
  let before := elems_of (get (state w) "todos") in
  let w' := Todo.toggleAll clock w in
  Forall2 (marked_as (negb (forallb completed before))) before
          (elems_of (get (state w') "todos"))
  /\ (forall k, k <> "todos" -> get (state w') k = get (state w) k)
  /\ allocated w'.
Proof.
  intros Ha before w'. unfold w', Todo.toggleAll, Zustand.getState.
  cbn [fresh next_ref]. fold before.
  change (forallb (fun todo => truthy (get todo "completed")) before)
    with (forallb completed before).
  destruct (marked_spec (negb (forallb completed before)) clock before 0
              (S (next_ref w))) as [Hmap Hle].
  destruct (Todo.marked (VBool (negb (forallb completed before))) clock 0 before
              (S (next_ref w))) as [mapped n] eqn:E.
  simpl in Hmap, Hle.
  destruct (literal_commit_at w n [("todos", VArr (next_ref w) mapped)]
              Ha ltac:(lia)) as (Hget & _ & Ha' & _).
  split; [rewrite Hget; exact Hmap|]. split; [|exact Ha'].
  intros k Hk. rewrite Hget. simpl.
  destruct (String.eqb_spec k "todos"); [contradiction|reflexivity].
Qed.

Lemma all_marked (target : bool) (todos : list value) :
  Forall (fun todo => get todo "completed" = VBool target) todos ->
  todos <> [] -> forallb completed todos = target.
Proof.
  intros Hall Hne. destruct target.
  - apply forallb_forall. intros todo Hin.
    rewrite Forall_forall in Hall. unfold completed.
    now rewrite (Hall todo Hin).
  - destruct todos as [|todo rest]; [contradiction|].
    inversion Hall as [|? ? Hhead _]; subst. simpl. unfold completed at 1.
    now rewrite Hhead.
Qed.

Lemma marked_as_all (target : bool) (olds news : list value) :
  Forall2 (marked_as target) olds news ->
  Forall (fun todo => get todo "completed" = VBool target) news.
Proof.
  induction 1 as [|old new olds news [Hc _] _ IH]; constructor; auto.
Qed.

(** X17.  [toggleAll] gives every todo the same [completed] flag: false
    when all of them were completed before (an empty list counts as all
    completed), true otherwise.  The list keeps its length and order, every
    field of a todo other than [completed] and [updatedAt] is kept, and no
    other field of the state is touched.  On a list that is not empty a
    second [toggleAll] leaves every todo completed exactly when all of them
    were completed at the start; so a partly completed list ends up with
    nothing completed, not as it was. *)
Theorem toggleAll_makes_todos_agree (clock clock' : nat -> Z) (w : world) :
  allocated w ->
  let before := elems_of (get (state w) "todos") in
  let w' := Todo.toggleAll clock w in
  let after := elems_of (get (state w') "todos") in
  Forall2 (marked_as (negb (forallb completed before))) before after
  /\ (forall k, k <> "todos" -> get (state w') k = get (state w) k)
  /\ (before <> [] ->
      Forall (fun todo =>
                get todo "completed" = VBool (forallb completed before))
             (elems_of (get (state (Todo.toggleAll clock' w')) "todos"))).
Proof.
  intros Ha before w' after.
  destruct (toggleAll_spec clock w Ha) as (Hmap & Hframe & Ha').
  fold before w' in Hmap, Hframe, Ha'. fold after in Hmap.
  split; [exact Hmap|]. split; [exact Hframe|].
  intros Hne.
  destruct (toggleAll_spec clock' w' Ha') as (Hmap' & _).
  fold after in Hmap'.
  assert (Hafter : forallb completed after = negb (forallb completed before)).
  { apply all_marked; [exact (marked_as_all _ _ _ Hmap)|].
    intros ->. inversion Hmap; subst. now apply Hne. }
  rewrite Hafter, Bool.negb_involutive in Hmap'.
  exact (marked_as_all _ _ _ Hmap').
Qed.

Lemma toggleAll_makes_todos_agree_witness :
  let once := Todo.toggleAll (fun _ => 100%Z) todo_world in
  let twice := Todo.toggleAll (fun _ => 200%Z) once in
  allocated todo_world
  /\ map completed (elems_of (get (state todo_world) "todos")) = [true; false]
  /\ map completed (elems_of (get (state once) "todos")) = [true; true]
  /\ Forall (fun todo => get todo "completed" = VBool false)
            (elems_of (get (state twice) "todos")).
Proof.
  intros once twice.
  assert (Ha : allocated todo_world) by (unfold allocated; simpl; lia).
  split; [exact Ha|]. split; [reflexivity|]. split; [reflexivity|].
  exact (proj2 (proj2 (toggleAll_makes_todos_agree
                         (fun _ => 100%Z) (fun _ => 200%Z) todo_world Ha))
               ltac:(discriminate)).
Defined.

(* ================================================================== *)
(** ** StoreHelper: replacing the state, and registrations *)
(* ================================================================== *)

(** X18.  [replaceState(s)], [resetState(s)] and [mergeState(s, 'replace')]
    with a value are the same operation: the object [s] itself becomes the
    state, so a field [s] lacks is gone, nothing is allocated and the
    listeners are called once with [s] and the previous state.  Doing it
    again with the same object is silent. *)
Theorem replaceState_installs_the_object (s : value) (w : world) :
  Object_is s (state w) = false ->
  let w' := StoreHelper.replaceState s w in
  state w' = s
  /\ (forall k, get (state w') k = get s k)
  /\ next_ref w' = next_ref w
  /\ trace w' = trace w ++ flat_map (emitted s (state w)) (listeners w)
  /\ StoreHelper.resetState s w = w'
  /\ StoreHelper.mergeState (Partial s) (Some Replace) w = w'
  /\ StoreHelper.replaceState s w' = w'.
Proof.
  intros Hne w'.
  assert (Hw : w' = Zustand.notify s (state w) (with_state s w)).
  { unfold w', StoreHelper.replaceState, Zustand.setState. now rewrite Hne. }
  destruct (notify_frame s (state w) (with_state s w)) as (Hn & Hst & _ & Htr).
  rewrite <- Hw in Hn, Hst, Htr. simpl in Hn, Hst, Htr.
  repeat split; auto.
  - now rewrite Hst.
  - unfold StoreHelper.replaceState. apply setState_unchanged.
    unfold resolved. rewrite Hst. apply strict_eq_refl.
Qed.

Lemma replaceState_installs_the_object_witness :
  let s := VObj 9 [("count", VNum 5)] in
  let w' := StoreHelper.replaceState s counter_world in
  Object_is s (state counter_world) = false
  /\ get (state counter_world) "step" = VNum 1
  /\ state w' = s
  /\ get (state w') "step" = VUndefined
  /\ get (state (StoreHelper.setState (Partial s) counter_world)) "step" = VNum 1.
Proof.
  intros s w'.
  pose proof (replaceState_installs_the_object s counter_world eq_refl) as H.
  split; [reflexivity|]. split; [reflexivity|].
  split; [exact (proj1 H)|].
  split; [exact (eq_trans (proj1 (proj2 H) "step") eq_refl)|reflexivity].
Defined.

(** The state a [setState] leaves depends on the state and the allocator
    only, not on who listens. *)
Lemma setState_state (partial : PartialState) (replace : option bool) (w : world) :
  state (Zustand.setState partial replace w)
  = let nextState := resolved partial w in
    if Object_is nextState (state w) then state w
    else if match replace with
            | Some b => b
            | None => negb (typeof_object nextState) || strict_eq nextState VNull
            end
         then nextState
         else VObj (next_ref w)
                (assign_from (assign_from [] (own_props (state w)))
                             (own_props nextState)).
Proof.
  unfold Zustand.setState, resolved. cbv zeta.
  destruct (Object_is _ (state w)); auto.
  match goal with |- context [if ?c then _ else _] => destruct c end; simpl;
    match goal with |- context [Zustand.notify ?a ?b ?c] =>
      destruct (notify_frame a b c) as (_ & -> & _ & _) end; reflexivity.
Qed.

Lemma calls_to_watcher (id : ref) (key : string) (cb : ref) (st previous : value) :
  calls_to cb (emitted st previous (FieldWatcher id key cb)) = heard key st previous.
Proof.
  unfold heard. simpl. destruct (strict_neq _ _); simpl; auto.
  now rewrite Nat.eqb_refl.
Qed.

Lemma unsubscribe_stranger (l : listener) (ls : list listener) :
  Forall (fun x => listener_id x <> listener_id l) ls ->
  filter (fun x => negb (Zustand.same_listener l x)) ls = ls.
Proof.
  induction 1 as [|x ls Hx _ IH]; simpl; auto.
  unfold Zustand.same_listener at 1.
  destruct (Nat.eqb_spec (listener_id l) (listener_id x)); simpl.
  - congruence.
  - now rewrite IH.
Qed.

(** X19.  Every [subscribeTo] call makes a registration of its own, also
    for a callback that is already watching the same field: after two
    calls a commit that changes the field calls the callback twice.  The
    function each call returns removes that one registration: after it the
    same commit calls the callback once, and after both not at all.  The
    committed state does not depend on who listens. *)
Theorem subscribeTo_registers_each_call
    (w : world) (key : string) (cb : ref)
    (partial : PartialState) (replace : option bool) :
  Forall (fun l => listener_id l < next_ref w) (listeners w) ->
  Forall (fun l => callee l <> cb) (listeners w) ->
  let first := StoreHelper.subscribeTo key cb no_options w in
  let second := StoreHelper.subscribeTo key cb no_options (snd first) in
  let w2 := snd second in
  let one_left := Zustand.unsubscribe (fst first) w2 in
  let none_left := Zustand.unsubscribe (fst second) one_left in
  let commit := Zustand.setState partial replace in
  let change :=
    if Object_is (resolved partial w) (state w) then []
    else heard key (state (commit w2)) (state w) in
  calls_to cb (trace (commit w2)) = calls_to cb (trace w) ++ change ++ change
  /\ calls_to cb (trace (commit one_left)) = calls_to cb (trace w) ++ change
  /\ calls_to cb (trace (commit none_left)) = calls_to cb (trace w)
  /\ state (commit one_left) = state (commit w2)
  /\ state (commit none_left) = state (commit w2)
  /\ Zustand.unsubscribe (fst first) one_left = one_left.
Proof.
  intros Hfresh Hother first second w2 one_left none_left commit change.
  destruct (subscribeTo_registers w key cb Hfresh) as (Hl1 & Hst1 & Htr1 & Hn1).
  fold first in Hl1, Hst1, Htr1, Hn1.
  assert (Hfresh1 : Forall (fun l => listener_id l < next_ref (snd first))
                           (listeners (snd first))).
  { rewrite Hl1, Hn1. apply Forall_app. split.
    - eapply Forall_impl; [|exact Hfresh]. simpl. intros; lia.
    - constructor; simpl; auto. }
  destruct (subscribeTo_registers (snd first) key cb Hfresh1)
    as (Hl2 & Hst2 & Htr2 & Hn2).
  fold second in Hl2, Hst2, Htr2, Hn2. fold w2 in Hl2, Hst2, Htr2, Hn2.
  rewrite Hl1, Hn1 in Hl2. rewrite Hst1 in Hst2. rewrite Htr1 in Htr2.
  rewrite Hn1 in Hn2.
  assert (Hh1 : fst first = FieldWatcher (next_ref w) key cb) by reflexivity.
  assert (Hh2 : fst second = FieldWatcher (S (next_ref w)) key cb).
  { change (fst second) with (FieldWatcher (next_ref (snd first)) key cb).
    now rewrite Hn1. }
  assert (Hstrangers : forall id, next_ref w <= id ->
            Forall (fun x => listener_id x <> id) (listeners w)).
  { intros id Hid. eapply Forall_impl; [|exact Hfresh]. simpl. intros; lia. }
  assert (Hone : listeners one_left
                 = listeners w ++ [FieldWatcher (S (next_ref w)) key cb]).
  { unfold one_left, Zustand.unsubscribe, with_listeners. cbn [listeners].
    rewrite Hl2, Hh1, <- app_assoc.
    rewrite filter_app,
      (unsubscribe_stranger (FieldWatcher (next_ref w) key cb) (listeners w)
         (Hstrangers _ (le_n _))).
    simpl. unfold Zustand.same_listener. simpl.
    rewrite Nat.eqb_refl. simpl.
    destruct (Nat.eqb_spec (next_ref w) (S (next_ref w))); [lia|reflexivity]. }
  assert (Hnone : listeners none_left = listeners w).
  { unfold none_left, Zustand.unsubscribe at 1. unfold with_listeners.
    cbn [listeners]. rewrite Hone, Hh2.
    rewrite filter_app,
      (unsubscribe_stranger (FieldWatcher (S (next_ref w)) key cb) (listeners w)
         (Hstrangers _ (Nat.le_succ_diag_r _))).
    simpl. unfold Zustand.same_listener. simpl.
    rewrite Nat.eqb_refl. simpl. apply app_nil_r. }
  assert (Hsame : forall v, state v = state w2 -> next_ref v = next_ref w2 ->
                            state (commit v) = state (commit w2)).
  { intros v Hs Hn. unfold commit. rewrite !setState_state. unfold resolved.
    rewrite Hs, Hn. reflexivity. }
  assert (Hs1 : state (commit one_left) = state (commit w2))
    by (apply Hsame; reflexivity).
  assert (Hs0 : state (commit none_left) = state (commit w2))
    by (apply Hsame; reflexivity).
  assert (Hres : forall v, state v = state w2 ->
                           resolved partial v = resolved partial w).
  { intros v Hs. unfold resolved. destruct partial; auto.
    now rewrite Hs, Hst2. }
  repeat split; auto.
  - unfold commit at 1. rewrite setState_trace, (Hres w2 eq_refl), Hst2, Htr2.
    rewrite calls_to_app. f_equal. unfold change.
    destruct (Object_is _ (state w)); auto.
    rewrite Hl2, <- app_assoc, flat_map_app, calls_to_app.
    rewrite (calls_to_emitted_other _ _ _ _ Hother). cbn [flat_map app].
    rewrite app_nil_r, calls_to_app, !calls_to_watcher. reflexivity.
  - unfold commit at 1. rewrite setState_trace, (Hres one_left eq_refl).
    change (state one_left) with (state w2). change (trace one_left) with (trace w2).
    fold commit. rewrite Hs1, Hst2, Htr2.
    rewrite calls_to_app. f_equal. unfold change.
    destruct (Object_is _ (state w)); auto.
    rewrite Hone, flat_map_app, calls_to_app.
    rewrite (calls_to_emitted_other _ _ _ _ Hother). cbn [flat_map app].
    rewrite app_nil_r, calls_to_watcher. reflexivity.
  - unfold commit at 1. rewrite setState_trace, (Hres none_left eq_refl).
    change (state none_left) with (state w2).
    change (trace none_left) with (trace w2).
    rewrite Hst2, Htr2, calls_to_app.
    destruct (Object_is _ (state w)); [now rewrite app_nil_r|].
    rewrite Hnone, (calls_to_emitted_other _ _ _ _ Hother). apply app_nil_r.
  - unfold Zustand.unsubscribe at 1. 
    replace (filter _ (listeners one_left)) with (listeners one_left).
    + reflexivity.
    + symmetry. apply unsubscribe_stranger. rewrite Hone, Hh1.
      apply Forall_app. split.
      * exact (Hstrangers _ (le_n _)).
      * constructor; simpl; auto.
Qed.

Lemma subscribeTo_registers_each_call_witness :
  let first := StoreHelper.subscribeTo "count" 50 no_options counter_world in
  let second := StoreHelper.subscribeTo "count" 50 no_options (snd first) in
  let one_left := Zustand.unsubscribe (fst first) (snd second) in
  Forall (fun l => listener_id l < next_ref counter_world) (listeners counter_world)
  /\ Forall (fun l => callee l <> 50) (listeners counter_world)
  /\ calls_to 50 (trace (Counter.increment whole_plus (snd second)))
     = [[VNum 1; VNum 0]; [VNum 1; VNum 0]]
  /\ calls_to 50 (trace (Zustand.setState (Partial (VObj 70 [("count", VNum 4)]))
                           None one_left))
     = [[VNum 4; VNum 0]].
Proof.
  intros first second one_left.
  assert (H1 : Forall (fun l => listener_id l < next_ref counter_world)
                      (listeners counter_world))
    by (repeat constructor).
  assert (H2 : Forall (fun l => callee l <> 50) (listeners counter_world))
    by (repeat constructor; discriminate).
  split; [exact H1|]. split; [exact H2|]. split; [reflexivity|].
  exact (eq_trans
           (proj1 (proj2 (subscribeTo_registers_each_call counter_world "count" 50
                            (Partial (VObj 70 [("count", VNum 4)])) None H1 H2)))
           eq_refl).
Defined.

(* ================================================================== *)
(** ** [paginate] *)
(* ================================================================== *)




(** X21.  For a page and a limit that are whole numbers (safe integers,
    with [page * limit + 1] one too) or missing, the counts [paginate]
    reports: [totalItems] is the length of the data and [totalPages] the
    least number of pages of [perPage] items that hold it (0 for no data).
    [itemCount] is always between 1 and [perPage]; it is not the number of
    items served when the data is empty or the page lies beyond the last
    one, where no item is served, and it is the number of items served on
    page 1 of data that is not empty. *)
Theorem paginate_counts
    {A : Type} (data : list A) (options : Database.PaginateOptions) :
  Database.whole options ->
  let served := Database.paginate data options in
  let m := Database.meta served in
  let len := Z.of_nat (List.length data) in
  Database.totalItems m = len
  /\ ((Database.totalPages m - 1) * Database.perPage m < len
      <= Database.totalPages m * Database.perPage m)%Z
  /\ (0 <= Database.totalPages m)%Z
  /\ (1 <= Database.itemCount m <= Database.perPage m)%Z
  /\ ((Database.totalPages m < Database.currentPage m)%Z ->
      Database.items served = [])
  /\ (Database.currentPage m = 1%Z -> data <> [] ->
      Database.itemCount m = Z.of_nat (List.length (Database.items served))).
Proof.
  intros _ served m len.
  unfold m, served, Database.paginate. cbn [Database.meta Database.items
    Database.totalItems Database.totalPages Database.perPage
    Database.itemCount Database.currentPage].
  fold len.
  set (per := match Database.limit options with
              | Some l => if (l <? 1)%Z then 1%Z else l
              | None => 1%Z
              end).
  set (current := match Database.page options with
                  | Some p => if (p <? 1)%Z then 1%Z else p
                  | None => 1%Z
                  end).
  assert (Hper : (1 <= per)%Z).
  { unfold per. destruct (Database.limit options) as [l|]; [|lia].
    destruct (Z.ltb_spec l 1); lia. }
  assert (Hcur : (1 <= current)%Z).
  { unfold current. destruct (Database.page options) as [p|]; [|lia].
    destruct (Z.ltb_spec p 1); lia. }
  assert (Hlen : (0 <= len)%Z) by (unfold len; lia).
  rewrite Z.rem_mod_nonneg by lia.
  pose proof (Z.div_mod len per ltac:(lia)) as Hdm.
  pose proof (Z.mod_pos_bound len per ltac:(lia)) as Hmod.
  pose proof (Z.div_pos len per Hlen ltac:(lia)) as Hdiv.
  set (q := (len / per)%Z) in *. set (r := (len mod per)%Z) in *.
  split; [reflexivity|].
  destruct (Z.eqb_spec r 0) as [Hr|Hr]; cbn [negb].
  - split; [nia|]. split; [lia|]. split.
    { destruct (Z.ltb_spec current q); lia. }
    split.
    + intros Hbeyond.
      destruct (Z.ltb_spec 1 current) as [H1|H1].
      * unfold Database.slice. fold len.
        destruct (Z.ltb_spec ((current - 1) * per + 1) 0); [nia|].
        destruct (Z.ltb_spec ((current - 1) * per + 1 + per) 0); [nia|].
        replace (Z.to_nat _) with 0 by nia. reflexivity.
      * assert (q = 0%Z) by lia. assert (len = 0%Z) by nia.
        destruct data;
          [unfold Database.slice; now rewrite skipn_nil, firstn_nil|].
        unfold len in *. simpl in *. lia.
    + intros Hone Hdata. rewrite Hone. cbn [Z.ltb Z.compare].
      unfold Database.slice. fold len.
      rewrite List.length_firstn, List.length_skipn. cbn.
      assert (0 < len)%Z.
      { destruct data; [contradiction|]. unfold len. simpl. lia. }
      destruct (Z.ltb_spec per 0); [lia|].
      assert (q <> 0%Z) by (intros E; rewrite E in Hdm; lia).
      assert (per <= len)%Z by nia.
      destruct (Z.ltb_spec 1 q); unfold len in *; lia.
  - split; [nia|]. split; [lia|]. split.
    { destruct (Z.ltb_spec current (q + 1)); lia. }
    split.
    + intros Hbeyond.
      destruct (Z.ltb_spec 1 current) as [H1|H1]; [|lia].
      unfold Database.slice. fold len.
      destruct (Z.ltb_spec ((current - 1) * per + 1) 0); [nia|].
      destruct (Z.ltb_spec ((current - 1) * per + 1 + per) 0); [nia|].
      replace (Z.to_nat _) with 0 by nia. reflexivity.
    + intros Hone Hdata. rewrite Hone. cbn [Z.ltb Z.compare].
      unfold Database.slice. fold len.
      rewrite List.length_firstn, List.length_skipn. cbn.
      destruct (Z.ltb_spec per 0); [lia|].
      destruct (Z.ltb_spec 1 (q + 1)).
      * assert (per <= len)%Z by nia. unfold len in *. lia.
      * assert (q = 0%Z) by lia. assert (len = r) by nia.
        unfold len in *. lia.
Qed.

(** Ten rows by pages of three, at page 5 of 4: no row is served, and the
    count of the page reads 1. *)
Lemma paginate_counts_witness :
  let rows := [0; 1; 2; 3; 4; 5; 6; 7; 8; 9]%Z in
  let beyond := Database.mkPaginateOptions (Some 5%Z) (Some 3%Z) in
  let m := Database.meta (Database.paginate rows beyond) in
  Database.whole beyond
  /\ Database.totalPages m = 4%Z
  /\ Database.itemCount m = 1%Z
  /\ Database.items (Database.paginate rows beyond) = [].
Proof.
  intros rows beyond m.
  assert (Hw : Database.whole beyond).
  { unfold Database.whole, Database.isSafeInteger, Database.MAX_SAFE_INTEGER.
    simpl. lia. }
  split; [exact Hw|]. split; [reflexivity|]. split; [reflexivity|].
  exact (proj1 (proj2 (proj2 (proj2 (proj2 (paginate_counts rows beyond Hw)))))
               ltac:(simpl; lia)).
Defined.
